(** * delete_emoji_files.py: the emoji PNG clean-up script

    A shallow embedding of [src/public/png-emojis/delete_emoji_files.py]
    and the properties its specification states about it.

    Layout:
    - [PyStr]: Python [str] values as lists of Unicode code points, with
      the string methods the script calls;
    - [Re]: the fragment of Python's [re] module the script uses, as a
      backtracking matcher over a pattern syntax tree, and [re.findall];
    - [OsModel]: the file system, [os.path], the standard streams, and a
      state and exception monad for the script's effects;
    - the script: [read_hex_codes], [find_matching_files], [delete_files]
      and [main];
    - the theory of the matcher and of the effects, and the properties of
      the specification, each marked with its claim.

    [main] is the script in a run where the operator answers the prompt
    and the files can be opened; the failures the script itself provides
    for are in it: a missing codes file and a refused [os.remove].
    [main_in] is the script in an environment that can also fail it
    where the source has no handler: standard input at its end, a codes
    file that cannot be read, a directory that cannot be listed, a log
    that cannot be written.  Throughout, standard output takes what is
    printed. *)

From Stdlib Require Import String Ascii DecimalString.
From Stdlib Require Import List NArith Arith Bool Lia.
Import ListNotations.

Set Implicit Arguments.

(* ================================================================== *)
(** ** Python strings *)

Module PyStr.

(** A Python [str] is a sequence of Unicode code points. *)
Definition char := N.
Definition pystr := list char.

Definition ch (a : ascii) : char := N_of_ascii a.

(** [py "abc"] is the Python literal ['abc'] (ASCII text only). *)
Definition py (s : string) : pystr := map ch (list_ascii_of_string s).

Definition LF : char := 10%N.

(** The literal ['abc\n']. *)
Definition pyln (s : string) : pystr := py s ++ [LF].

Definition char_eqb (a b : char) : bool := N.eqb a b.

(** [a == b] on strings. *)
Fixpoint str_eqb (a b : pystr) : bool :=
  match a, b with
  | [], [] => true
  | x :: a', y :: b' => char_eqb x y && str_eqb a' b'
  | _, _ => false
  end.

Definition between (lo hi c : char) : bool := (N.leb lo c && N.leb c hi)%bool.

(** [Py_UNICODE_ISSPACE]: the code points [str.isspace], [str.strip] and
    the regular expression class [\s] treat as whitespace. *)
Definition isspace (c : char) : bool :=
  (between 9 13 c || between 28 32 c || char_eqb c 133 || char_eqb c 160
   || char_eqb c 5760 || between 8192 8202 c || char_eqb c 8232
   || char_eqb c 8233 || char_eqb c 8239 || char_eqb c 8287
   || char_eqb c 12288)%N%bool.

Fixpoint lstrip (s : pystr) : pystr :=
  match s with
  | c :: s' => if isspace c then lstrip s' else s
  | [] => []
  end.

Definition rstrip (s : pystr) : pystr := rev (lstrip (rev s)).

(** [s.strip()] *)
Definition strip (s : pystr) : pystr := rstrip (lstrip s).

(** [s.startswith(p)] *)
Fixpoint startswith (s p : pystr) : bool :=
  match p, s with
  | [], _ => true
  | x :: p', y :: s' => char_eqb x y && startswith s' p'
  | _ :: _, [] => false
  end.

(** [s.endswith(p)] *)
Definition endswith (s p : pystr) : bool := startswith (rev s) (rev p).

(** [sep.join(parts)] *)
Fixpoint join (sep : pystr) (parts : list pystr) : pystr :=
  match parts with
  | [] => []
  | [p] => p
  | p :: ps => p ++ sep ++ join sep ps
  end.

(** [x in xs] for a list of strings. *)
Definition str_in (x : pystr) (xs : list pystr) : bool := existsb (str_eqb x) xs.

(** [str(n)] for a non-negative integer, as an f-string renders it. *)
Definition str_of_nat (n : nat) : pystr := py (NilZero.string_of_uint (Nat.to_uint n)).

Definition is_ascii (c : char) : bool := N.ltb c 128.

Definition is_upper_ascii (c : char) : bool := between (ch "A") (ch "Z") c.
Definition is_lower_ascii (c : char) : bool := between (ch "a") (ch "z") c.

Definition ascii_lower (c : char) : char := if is_upper_ascii c then (c + 32)%N else c.
Definition ascii_upper (c : char) : char := if is_lower_ascii c then (c - 32)%N else c.

End PyStr.
Import PyStr.

(* ================================================================== *)
(** ** Regular expressions *)

Module Re.

(** The flags of [re.compile]. *)
Record flags := { MULTILINE : bool; IGNORECASE : bool }.

(** Members of a character set, named as [sre_parse] names them. *)
Inductive set_item :=
| LITERAL (c : char)
| RANGE (lo hi : char)
| CATEGORY_SPACE.

(** Pattern syntax, for the constructs the script's pattern is built
    from.  [MAX_REPEAT n r] is the greedy [r{n,}], so [r*] is
    [MAX_REPEAT 0 r]; a non-capturing group [(?:r)] is [r] itself;
    [SUBPATTERN r] is a capturing group (the script's pattern has one). *)
Inductive re :=
| AT_BEGINNING
| IN (items : list set_item)
| SEQ (r1 r2 : re)
| BRANCH (r1 r2 : re)
| MAX_REPEAT (min : nat) (r : re)
| SUBPATTERN (r : re).

(** Matching one set item.  With [IGNORECASE] a code point matches when
    it, its lower case or its upper case is in the set.  Case conversion
    is the ASCII one: no code point outside ASCII has a simple case
    mapping into ASCII letters [a-f], so for sets of ASCII hexadecimal
    digits this is the Unicode behaviour. *)
Definition item_has (it : set_item) (c : char) : bool :=
  match it with
  | LITERAL x => char_eqb c x
  | RANGE lo hi => between lo hi c
  | CATEGORY_SPACE => isspace c
  end.

Definition item_mem (fl : flags) (it : set_item) (c : char) : bool :=
  item_has it c
  || (IGNORECASE fl && (item_has it (ascii_lower c) || item_has it (ascii_upper c))).

Definition charset (fl : flags) (items : list set_item) (c : char) : bool :=
  existsb (fun it => item_mem fl it c) items.

(** [^]: the start of the text, and with [MULTILINE] also just after
    each line feed.  [prev] is the code point before the position. *)
Definition at_beginning (fl : flags) (prev : option char) : bool :=
  match prev with
  | None => true
  | Some c => MULTILINE fl && char_eqb c LF
  end.

(** The matcher's state: the code point before the current position,
    the text from the position on, and the text of group 1 if it is set. *)
Record mstate := { prev : option char; rest : pystr; group1 : option pystr }.

Definition advance (st : mstate) (c : char) (tl : pystr) : mstate :=
  {| prev := Some c; rest := tl; group1 := group1 st |}.

Definition set_group (st : mstate) (g : pystr) : mstate :=
  {| prev := prev st; rest := rest st; group1 := Some g |}.

(** The text between two states of one match. *)
Definition consumed (st st1 : mstate) : pystr :=
  firstn (length (rest st) - length (rest st1)) (rest st).

(** The rounds of a greedy repetition.  [body] matches the repeated
    pattern once; another round is tried first, and the rest of the
    pattern ([k]) only when that fails and the minimum count is reached.
    A round has to consume text, so the length of the remaining text
    bounds the number of rounds. *)
Fixpoint rounds (body : mstate -> (mstate -> option mstate) -> option mstate)
  (k : mstate -> option mstate) (fuel min : nat) (st : mstate) {struct fuel}
  : option mstate :=
  let stop := if Nat.eqb min 0 then k st else None in
  match fuel with
  | O => stop
  | S fuel' =>
      match body st (fun st1 =>
              if Nat.ltb (length (rest st1)) (length (rest st))
              then rounds body k fuel' (Nat.pred min) st1 else None) with
      | Some res => Some res
      | None => stop
      end
  end.

(** Backtracking matcher, in continuation-passing style: [m fl r st k]
    matches [r] at [st] and hands each way of matching it, in Python's
    order of preference, to [k] until [k] succeeds. *)
Fixpoint m (fl : flags) (r : re) (st : mstate) (k : mstate -> option mstate)
  {struct r} : option mstate :=
  match r with
  | AT_BEGINNING => if at_beginning fl (prev st) then k st else None
  | IN items =>
      match rest st with
      | c :: tl => if charset fl items c then k (advance st c tl) else None
      | [] => None
      end
  | SEQ r1 r2 => m fl r1 st (fun st1 => m fl r2 st1 k)
  | BRANCH r1 r2 =>
      match m fl r1 st k with
      | Some res => Some res
      | None => m fl r2 st k
      end
  | MAX_REPEAT min r1 => rounds (m fl r1) k (length (rest st)) min st
  | SUBPATTERN r1 => m fl r1 st (fun st1 => k (set_group st1 (consumed st st1)))
  end.

Definition start (p : option char) (s : pystr) : mstate :=
  {| prev := p; rest := s; group1 := None |}.

(** What [findall] reports for a match of a pattern with one group: the
    group's text, or the empty string if the group took no part. *)
Definition group_text (res : mstate) : pystr :=
  match group1 res with Some g => g | None => [] end.

(** The scan of [re.findall]: try the pattern at the current position;
    on success report the group and go on from the end of the match
    (one code point further after an empty match); on failure move one
    code point on.  Every step shortens the text, so [fuel] greater than
    its length is never used up. *)
Fixpoint scan (fuel : nat) (fl : flags) (r : re) (p : option char) (s : pystr)
  : list pystr :=
  match fuel with
  | O => []
  | S fuel' =>
      let step := match s with
                  | [] => []
                  | c :: tl => scan fuel' fl r (Some c) tl
                  end in
      match m fl r (start p s) Some with
      | Some res =>
          if Nat.ltb (length (rest res)) (length s)
          then group_text res :: scan fuel' fl r (prev res) (rest res)
          else group_text res :: step
      | None => step
      end
  end.

(** [re.findall(pattern, s, flags)] *)
Definition findall (r : re) (s : pystr) (fl : flags) : list pystr :=
  scan (S (length s)) fl r None s.

(** Declarative reading of a pattern: [matches fl r p w] says [r] can
    match exactly the text [w] when [p] is the code point before it. *)
Definition prev_after (p : option char) (w : pystr) : option char :=
  last (map Some w) p.

Inductive matches (fl : flags) : re -> option char -> pystr -> Prop :=
| M_at p : at_beginning fl p = true -> matches fl AT_BEGINNING p []
| M_in items p c : charset fl items c = true -> matches fl (IN items) p [c]
| M_seq r1 r2 p w1 w2 :
    matches fl r1 p w1 -> matches fl r2 (prev_after p w1) w2 ->
    matches fl (SEQ r1 r2) p (w1 ++ w2)
| M_branch_l r1 r2 p w : matches fl r1 p w -> matches fl (BRANCH r1 r2) p w
| M_branch_r r1 r2 p w : matches fl r2 p w -> matches fl (BRANCH r1 r2) p w
| M_rep_stop r p : matches fl (MAX_REPEAT 0 r) p []
| M_rep_round min r p w1 w2 :
    matches fl r p w1 -> matches fl (MAX_REPEAT (Nat.pred min) r) (prev_after p w1) w2 ->
    matches fl (MAX_REPEAT min r) p (w1 ++ w2)
| M_sub r p w : matches fl r p w -> matches fl (SUBPATTERN r) p w.

End Re.
Import Re.

(* ================================================================== *)
(** ** The operating system: files, paths and streams *)

Module OsModel.

(** A file: its text, and whether the system lets [os.remove] unlink it
    (a read-only directory, an immutable file and a directory entry that
    is not a plain file are all [removable := false]). *)
Record node := { content : pystr; removable : bool }.

(** The file system: full path to node, in the order the system lists
    the entries. *)
Definition filesystem := list (pystr * node).

Inductive OSError :=
| FileNotFoundError (path : pystr)
| PermissionError (path : pystr).

(** What a run can raise: [sys.exit(code)], the errors of system calls
    that [delete_files] provides for, [EOFError] from [input] when
    standard input is at its end, and what [open], [read] or [write]
    raises on an entry that cannot be opened that way (in Python an
    [IsADirectoryError], a [PermissionError] or a [UnicodeDecodeError]). *)
Inductive exn :=
| SystemExit (code : nat)
| OSErr (e : OSError)
| EOFError
| OpenError (path : pystr).

(** The calls that reach the disk, as a run issues them. *)
Inductive syscall :=
| UNLINK (path : pystr) (done : bool)
| WRITE (path : pystr) (text : pystr).

Record world := { fs : filesystem; stdout : list pystr; journal : list syscall }.

Fixpoint lookup (path : pystr) (files : filesystem) : option node :=
  match files with
  | [] => None
  | (p, n) :: files' => if str_eqb p path then Some n else lookup path files'
  end.

Definition unlink (path : pystr) (files : filesystem) : filesystem :=
  filter (fun e => negb (str_eqb (fst e) path)) files.

(** [open(path, 'w')], the writes and the close: an existing file gets
    the new text, a new one is added at the end of the listing. *)
Fixpoint store (path text : pystr) (files : filesystem) : filesystem :=
  match files with
  | [] => [(path, {| content := text; removable := true |})]
  | (p, n) :: files' =>
      if str_eqb p path
      then (p, {| content := text; removable := removable n |}) :: files'
      else (p, n) :: store path text files'
  end.

(** *** [os.path] (posixpath) *)

Definition sep : char := ch "/".
Definition not_sep (c : char) : bool := negb (char_eqb c sep).

Fixpoint takewhile (f : char -> bool) (s : pystr) : pystr :=
  match s with
  | c :: s' => if f c then c :: takewhile f s' else []
  | [] => []
  end.

Fixpoint dropwhile (f : char -> bool) (s : pystr) : pystr :=
  match s with
  | c :: s' => if f c then dropwhile f s' else s
  | [] => []
  end.

(** [os.path.basename(p)]: the text after the last ['/']. *)
Definition os_path_basename (p : pystr) : pystr := rev (takewhile not_sep (rev p)).

(** [os.path.dirname(p)]: the text up to the last ['/'], without the
    slashes at its end unless it is made of slashes only. *)
Definition os_path_dirname (p : pystr) : pystr :=
  let head := rev (dropwhile not_sep (rev p)) in
  if forallb (char_eqb sep) head then head
  else rev (dropwhile (char_eqb sep) (rev head)).

(** [os.path.join(a, b)] *)
Definition os_path_join (a b : pystr) : pystr :=
  if startswith b [sep] then b
  else if str_eqb a [] || endswith a [sep] then a ++ b
  else a ++ [sep] ++ b.

(** The name under which [path] is an entry of [directory], if it is one. *)
Fixpoint strip_prefix (p s : pystr) : option pystr :=
  match p, s with
  | [], _ => Some s
  | x :: p', y :: s' => if char_eqb x y then strip_prefix p' s' else None
  | _ :: _, [] => None
  end.

Definition entry_name (directory path : pystr) : option pystr :=
  match strip_prefix (os_path_join directory []) path with
  | Some (c :: name) => if forallb not_sep (c :: name) then Some (c :: name) else None
  | _ => None
  end.

(** [os.listdir(directory)] *)
Definition os_listdir (files : filesystem) (directory : pystr) : list pystr :=
  flat_map (fun e => match entry_name directory (fst e) with
                     | Some name => [name]
                     | None => []
                     end) files.

(** [os.path.exists(path)] *)
Definition os_path_exists (files : filesystem) (path : pystr) : bool :=
  match lookup path files with Some _ => true | None => false end.

(** *** Effects: a state and exception monad over the world *)

Inductive result (A : Type) :=
| Ok (a : A)
| Raise (e : exn).
Arguments Ok {A} a.
Arguments Raise {A} e.

Definition io (A : Type) := world -> result A * world.

Definition ret {A} (a : A) : io A := fun w => (Ok a, w).

Definition bind {A B} (c : io A) (k : A -> io B) : io B :=
  fun w => match c w with
           | (Ok a, w') => k a w'
           | (Raise e, w') => (Raise e, w')
           end.

Definition raise {A} (e : exn) : io A := fun w => (Raise e, w).

(** [try: c  except Exception as e: handler(e)], for a body whose
    exceptions are [OSError]s, as the one guarded in [delete_files] is
    ([os.remove], then an append and a [print]).  [SystemExit] is not an
    [Exception] and passes through. *)
Definition try_except {A} (c : io A) (handler : OSError -> io A) : io A :=
  fun w => match c w with
           | (Raise (OSErr e), w') => handler e w'
           | r => r
           end.

(** A [for] loop that carries the loop's mutable local along. *)
Fixpoint for_each {X A} (xs : list X) (acc : A) (body : A -> X -> io A) : io A :=
  match xs with
  | [] => ret acc
  | x :: xs' => bind (body acc x) (fun acc' => for_each xs' acc' body)
  end.

Definition get_fs : io filesystem := fun w => (Ok (fs w), w).

Definition emit (chunk : pystr) : io unit :=
  fun w => (Ok tt, {| fs := fs w; stdout := stdout w ++ [chunk]; journal := journal w |}).

(** [print(s)] *)
Definition print (s : pystr) : io unit := emit (s ++ [LF]).

(** [input(prompt)]: the prompt goes to standard output and the call
    returns the line the operator types, without its line end.  The run
    is interactive: [answer] is that line. *)
Definition input (answer : pystr) (prompt : pystr) : io pystr :=
  bind (emit prompt) (fun _ => ret answer).

(** [sys.exit(code)] *)
Definition sys_exit {A} (code : nat) : io A := raise (SystemExit code).

(** [os.remove(path)] *)
Definition os_remove (path : pystr) : io unit :=
  fun w =>
    let log b := journal w ++ [UNLINK path b] in
    match lookup path (fs w) with
    | None =>
        (Raise (OSErr (FileNotFoundError path)),
         {| fs := fs w; stdout := stdout w; journal := log false |})
    | Some n =>
        if removable n
        then (Ok tt, {| fs := unlink path (fs w); stdout := stdout w; journal := log true |})
        else (Raise (OSErr (PermissionError path)),
              {| fs := fs w; stdout := stdout w; journal := log false |})
    end.

(** [with open(path, 'r') as f: f.read()] *)
Definition read_text (path : pystr) : io pystr :=
  fun w => match lookup path (fs w) with
           | Some n => (Ok (content n), w)
           | None => (Raise (OSErr (FileNotFoundError path)), w)
           end.

(** [with open(path, 'w') as f:] and the text written in its body. *)
Definition write_text (path text : pystr) : io unit :=
  fun w => (Ok tt, {| fs := store path text (fs w); stdout := stdout w;
                      journal := journal w ++ [WRITE path text] |}).

(** The status the process ends with: the argument of [sys.exit], 1 for
    an exception nobody caught, 0 when the script runs off its end. *)
Definition exit_status {A} (r : result A) : nat :=
  match r with
  | Ok _ => 0
  | Raise (SystemExit code) => code
  | Raise _ => 1
  end.

End OsModel.
Import OsModel.

Declare Scope io_scope.
Delimit Scope io_scope with io.
Notation "x <- c ;; k" := (bind c (fun x => k))
  (at level 61, c at next level, right associativity) : io_scope.
Notation "c ;; k" := (bind c (fun _ => k))
  (at level 61, right associativity) : io_scope.
Open Scope io_scope.

(* ================================================================== *)
(** ** The script *)

(** The set [[0-9A-F]]. *)
Definition hex_digits : re := IN [RANGE (ch "0") (ch "9"); RANGE (ch "A") (ch "F")].

(** [hex_pattern], piece by piece:
    - [(?:^|\s)] is [BRANCH AT_BEGINNING (IN [CATEGORY_SPACE])];
    - the capturing group holds [[0-9A-F]{4,}] followed by the starred
      non-capturing group [(?:-[0-9A-F]{4,})]. *)
Definition hex_pattern : re :=
  SEQ (BRANCH AT_BEGINNING (IN [CATEGORY_SPACE]))
      (SUBPATTERN
         (SEQ (MAX_REPEAT 4 hex_digits)
              (MAX_REPEAT 0 (SEQ (IN [LITERAL (ch "-")]) (MAX_REPEAT 4 hex_digits))))).

(** [re.MULTILINE | re.IGNORECASE] *)
Definition hex_flags : flags := {| MULTILINE := true; IGNORECASE := true |}.

(** The clean-up loop of [read_hex_codes]. *)
Definition clean_codes (hex_codes : list pystr) : list pystr :=
  fold_left
    (fun cleaned_codes code =>
       if startswith (strip code) (py "#") || str_eqb (strip code) []
       then cleaned_codes
       else cleaned_codes ++ [strip code])
    hex_codes [].

(** [read_hex_codes] from the point where [content] has been read. *)
Definition extract_hex_codes (content : pystr) : list pystr :=
  let hex_codes := findall hex_pattern content hex_flags in
  clean_codes hex_codes.

Definition read_hex_codes (file_path : pystr) : io (list pystr) :=
  content <- read_text file_path ;;
  ret (extract_hex_codes content).

(** [find_matching_files], on the directory listing it reads. *)
Definition matching_in (listing : list pystr) (directory : pystr)
  (hex_codes : list pystr) : list pystr :=
  let patterns := map (fun code => code ++ py ".png") hex_codes in
  fold_left
    (fun matching_files filename =>
       if str_in filename patterns
       then matching_files ++ [os_path_join directory filename]
       else matching_files)
    listing [].

Definition find_matching_files (directory : pystr) (hex_codes : list pystr)
  : io (list pystr) :=
  files <- get_fs ;;
  ret (matching_in (os_listdir files directory) directory hex_codes).

Section Platform.

(** What the platform supplies and the source does not show: the text of
    an [OSError] as [str(e)] gives it, and [str.lower] on text that is not
    pure ASCII (the Unicode case tables). *)
Variable exn_str : OSError -> pystr.
Variable unicode_lower : pystr -> pystr.

(** [s.lower()], as CPython splits it: the ASCII-only path maps [A-Z] to
    [a-z], any other text goes through the Unicode tables. *)
Definition lower (s : pystr) : pystr :=
  if forallb is_ascii s then map ascii_lower s else unicode_lower s.

(** The body of the loop of [delete_files]; [deleted_files] is the list
    the loop appends to. *)
Definition delete_files_body (dry_run : bool) (deleted_files : list pystr)
  (file_path : pystr) : io (list pystr) :=
  if dry_run
  then print (py "Would delete: " ++ file_path) ;; ret deleted_files
  else
    try_except
      (os_remove file_path ;;
       let deleted_files := deleted_files ++ [os_path_basename file_path] in
       print (py "Deleted: " ++ file_path) ;;
       ret deleted_files)
      (fun e =>
         print (py "Error deleting " ++ file_path ++ py ": " ++ exn_str e) ;;
         ret deleted_files).

Definition delete_files (files : list pystr) (dry_run : bool) : io (list pystr) :=
  for_each files [] (delete_files_body dry_run).

(** The text the log gets: the head line, then one line per file. *)
Definition log_text (deleted : list pystr) : pystr :=
  fold_left (fun text file => text ++ file ++ [LF]) deleted
    (py "Deleted " ++ str_of_nat (length deleted) ++ pyln " files:").

(** [main].  [script_path] is [os.path.abspath(__file__)] and [answer]
    the line the operator gives at the prompt. *)
Definition main (script_path answer : pystr) : io unit :=
  let directory := os_path_dirname script_path in
  let hex_codes_file := os_path_join directory (py "hex_codes_to_delete.txt") in
  files <- get_fs ;;
  (if negb (os_path_exists files hex_codes_file)
   then print (py "Error: Hex codes file not found at " ++ hex_codes_file) ;;
        sys_exit 1
   else ret tt) ;;
  hex_codes <- read_hex_codes hex_codes_file ;;
  print (py "Found " ++ str_of_nat (length hex_codes) ++ py " hex codes to process") ;;
  matching_files <- find_matching_files directory hex_codes ;;
  print (py "Found " ++ str_of_nat (length matching_files)
         ++ py " matching files to delete") ;;
  match matching_files with
  | _ :: _ =>
      print (LF :: py "Files that will be deleted:") ;;
      for_each matching_files tt
        (fun _ file => print (py "  " ++ os_path_basename file)) ;;
      confirm <- input answer (LF :: py "Delete these files? (yes/no): ") ;;
      if str_eqb (lower confirm) (py "yes")
      then
        deleted <- delete_files matching_files false ;;
        let log_file := os_path_join directory (py "deleted_files_log.txt") in
        write_text log_file (log_text deleted) ;;
        print (LF :: py "Deleted " ++ str_of_nat (length deleted)
               ++ py " files. Log written to " ++ log_file)
      else print (py "Operation cancelled.")
  | [] => print (py "No matching files found to delete.")
  end.

End Platform.

(** *** The script in an environment that can fail it

    [main] above is the script in a run where the operator answers the
    prompt and the files can be opened.  Below is the same script with
    the failures the source does not provide for: standard input at its
    end, a codes file that is there but cannot be read, a directory
    that cannot be listed, a log that cannot be written.  None of them
    is caught in the source, so each ends the run with a traceback. *)

(** [stdin] is the line the operator gives, [None] when standard input
    is at its end; [unreadable path] says that [open(path, 'r')] or
    [read()] raises on the entry at [path] (a directory, no permission,
    bytes that do not decode); [unlistable path] says that
    [os.listdir(path)] raises, and [unwritable path] that
    [open(path, 'w')] does. *)
Record environment := {
  stdin : option pystr;
  unreadable : pystr -> bool;
  unlistable : pystr -> bool;
  unwritable : pystr -> bool
}.

(** [input(prompt)]: the prompt goes to standard output; at the end of
    standard input the call raises [EOFError]. *)
Definition input_line (env : environment) (prompt : pystr) : io pystr :=
  emit prompt ;;
  match stdin env with
  | Some line => ret line
  | None => raise EOFError
  end.

(** [with open(path, 'r') as f: f.read()] *)
Definition read_text_in (env : environment) (path : pystr) : io pystr :=
  fun w => match lookup path (fs w) with
           | Some n => if unreadable env path
                       then (Raise (OpenError path), w)
                       else (Ok (content n), w)
           | None => (Raise (OSErr (FileNotFoundError path)), w)
           end.

(** [with open(path, 'w') as f:] and the text written in its body. *)
Definition write_text_in (env : environment) (path text : pystr) : io unit :=
  if unwritable env path then raise (OpenError path) else write_text path text.

Definition read_hex_codes_in (env : environment) (file_path : pystr) : io (list pystr) :=
  content <- read_text_in env file_path ;;
  ret (extract_hex_codes content).

Definition find_matching_files_in (env : environment) (directory : pystr)
  (hex_codes : list pystr) : io (list pystr) :=
  files <- get_fs ;;
  if unlistable env directory
  then raise (OpenError directory)
  else ret (matching_in (os_listdir files directory) directory hex_codes).

Section Environment.

Variable exn_str : OSError -> pystr.
Variable unicode_lower : pystr -> pystr.

(** [main], with its read, its listing, its prompt and its write in
    [env]. *)
Definition main_in (env : environment) (script_path : pystr) : io unit :=
  let directory := os_path_dirname script_path in
  let hex_codes_file := os_path_join directory (py "hex_codes_to_delete.txt") in
  files <- get_fs ;;
  (if negb (os_path_exists files hex_codes_file)
   then print (py "Error: Hex codes file not found at " ++ hex_codes_file) ;;
        sys_exit 1
   else ret tt) ;;
  hex_codes <- read_hex_codes_in env hex_codes_file ;;
  print (py "Found " ++ str_of_nat (length hex_codes) ++ py " hex codes to process") ;;
  matching_files <- find_matching_files_in env directory hex_codes ;;
  print (py "Found " ++ str_of_nat (length matching_files)
         ++ py " matching files to delete") ;;
  match matching_files with
  | _ :: _ =>
      print (LF :: py "Files that will be deleted:") ;;
      for_each matching_files tt
        (fun _ file => print (py "  " ++ os_path_basename file)) ;;
      confirm <- input_line env (LF :: py "Delete these files? (yes/no): ") ;;
      if str_eqb (lower unicode_lower confirm) (py "yes")
      then
        deleted <- delete_files exn_str matching_files false ;;
        let log_file := os_path_join directory (py "deleted_files_log.txt") in
        write_text_in env log_file (log_text deleted) ;;
        print (LF :: py "Deleted " ++ str_of_nat (length deleted)
               ++ py " files. Log written to " ++ log_file)
      else print (py "Operation cancelled.")
  | [] => print (py "No matching files found to delete.")
  end.

End Environment.

(** *** Vocabulary for the statements below *)

(** The world after [chunks] went to standard output. *)
Definition say (w : world) (chunks : list pystr) : world :=
  {| fs := fs w; stdout := stdout w ++ chunks; journal := journal w |}.

(** The two files [main] names, next to the script. *)
Definition codes_path (script_path : pystr) : pystr :=
  os_path_join (os_path_dirname script_path) (py "hex_codes_to_delete.txt").

Definition log_path (script_path : pystr) : pystr :=
  os_path_join (os_path_dirname script_path) (py "deleted_files_log.txt").

(** The files [main] finds to delete, when the codes file holds [content]. *)
Definition matched (script_path content : pystr) (files : filesystem) : list pystr :=
  let directory := os_path_dirname script_path in
  matching_in (os_listdir files directory) directory (extract_hex_codes content).

(** A deletion run as a list of (path, whether it was removed). *)
Definition attempts (outcomes : list (pystr * bool)) : list syscall :=
  map (fun o => UNLINK (fst o) (snd o)) outcomes.

Definition removed (outcomes : list (pystr * bool)) : list pystr :=
  map fst (filter snd outcomes).

(** Whether [os.remove(path)] succeeds on [files]. *)
Definition can_remove (files : filesystem) (path : pystr) : bool :=
  match lookup path files with
  | Some n => removable n
  | None => false
  end.

(** What [delete_files] prints about one attempt. *)
Definition reported (exn_str : OSError -> pystr) (o : pystr * bool) (line : pystr) : Prop :=
  if snd o
  then line = py "Deleted: " ++ fst o ++ [LF]
  else exists e, line = (py "Error deleting " ++ fst o ++ py ": " ++ exn_str e) ++ [LF].

(** What the specification calls a hex code: hyphen-joined groups of four
    or more hexadecimal digits, in either case. *)
Definition is_hex_digit (c : char) : bool :=
  between (ch "0") (ch "9") c || between (ch "A") (ch "F") c
  || between (ch "a") (ch "f") c.

Definition hex_group (g : pystr) : Prop :=
  4 <= length g /\ Forall (fun c => is_hex_digit c = true) g.

Definition hex_code (s : pystr) : Prop :=
  exists groups, groups <> [] /\ Forall hex_group groups /\ s = join (py "-") groups.

(** The file system after the files at [paths] were unlinked. *)
Definition unlink_all (paths : list pystr) (files : filesystem) : filesystem :=
  fold_left (fun f p => unlink p f) paths files.

(** What [main] prints before it decides, and after the deletion. *)
Definition found_lines (hex_codes matching_files : list pystr) : list pystr :=
  [ (py "Found " ++ str_of_nat (length hex_codes) ++ py " hex codes to process") ++ [LF];
    (py "Found " ++ str_of_nat (length matching_files)
     ++ py " matching files to delete") ++ [LF] ].

Definition prompt_lines (matching_files : list pystr) : list pystr :=
  [(LF :: py "Files that will be deleted:") ++ [LF]]
  ++ map (fun file => (py "  " ++ os_path_basename file) ++ [LF]) matching_files
  ++ [LF :: py "Delete these files? (yes/no): "].

Definition done_line (deleted : list pystr) (log_file : pystr) : pystr :=
  (LF :: py "Deleted " ++ str_of_nat (length deleted)
   ++ py " files. Log written to " ++ log_file) ++ [LF].

(** A successful run of a matcher took some text [w] off the front of
    the input, which the pattern matches, and the continuation succeeded
    from there. *)
Definition sound_for (fl : flags) (r : re)
  (body : mstate -> (mstate -> option mstate) -> option mstate) : Prop :=
  forall st k res, body st k = Some res ->
    exists w st1, rest st = w ++ rest st1
                  /\ prev st1 = prev_after (prev st) w
                  /\ matches fl r (prev st) w
                  /\ k st1 = Some res.

(** A matcher is local when it only asks its continuation about states
    that are no further from the end of the text than its own. *)
Definition local (body : mstate -> (mstate -> option mstate) -> option mstate) : Prop :=
  forall st k1 k2,
    (forall st1, length (rest st1) <= length (rest st) -> k1 st1 = k2 st1) ->
    body st k1 = body st k2.

(** *** Vocabulary for texts laid out as codes and gaps *)

(** The matcher's state once it has read [w] and stands before [tl]. *)
Definition after (st : mstate) (w tl : pystr) : mstate :=
  {| prev := prev_after (prev st) w; rest := tl; group1 := group1 st |}.

(** A text at which a code ends: the end of the text, or a code point
    that is neither a hexadecimal digit nor a hyphen. *)
Definition code_ends (tl : pystr) : Prop :=
  match tl with
  | [] => True
  | c :: _ => is_hex_digit c = false /\ c <> ch "-"
  end.

(** A text that does not go on with a hexadecimal digit. *)
Definition run_ends (tl : pystr) : Prop :=
  match tl with
  | [] => True
  | c :: _ => is_hex_digit c = false
  end.

Definition all_space (gap : pystr) : Prop := Forall (fun c => isspace c = true) gap.

(** A text made of items, each a word followed by a gap. *)
Definition lay_out (items : list (pystr * pystr)) : pystr :=
  concat (map (fun it => fst it ++ snd it) items).

(** Codes set apart by whitespace: every word is a hex code, every gap is
    whitespace, and only the last gap may be empty. *)
Fixpoint spaced_codes (items : list (pystr * pystr)) : Prop :=
  match items with
  | [] => True
  | (code, gap) :: items' =>
      hex_code code /\ all_space gap /\ (items' <> [] -> gap <> [])
      /\ spaced_codes items'
  end.

(** A word: no whitespace in it. *)
Definition no_space (w : pystr) : Prop := Forall (fun c => isspace c = false) w.

(** A text made of entries, each a code with a suffix in the same word
    (an extension, say) followed by a gap. *)
Definition lay_out_names (entries : list (pystr * pystr * pystr)) : pystr :=
  concat (map (fun e => fst (fst e) ++ snd (fst e) ++ snd e) entries).

(** Codes with suffixes, set apart by whitespace: the suffix has no
    whitespace and does not continue the code, every gap is whitespace,
    and only the last gap may be empty. *)
Fixpoint suffixed_codes (entries : list (pystr * pystr * pystr)) : Prop :=
  match entries with
  | [] => True
  | (code, suffix, gap) :: entries' =>
      hex_code code /\ no_space suffix /\ code_ends suffix
      /\ all_space gap /\ (entries' <> [] -> gap <> [])
      /\ suffixed_codes entries'
  end.

(** *** A concrete installation, for examples *)

(** The messages of a POSIX system, and a run where only ASCII is typed
    (so that the Unicode case tables are never consulted). *)
Definition posix_exn_str (e : OSError) : pystr :=
  match e with
  | FileNotFoundError path => py "[Errno 2] No such file or directory: '" ++ path ++ py "'"
  | PermissionError path => py "[Errno 13] Permission denied: '" ++ path ++ py "'"
  end.

Definition ascii_only_lower (s : pystr) : pystr := s.

Definition emoji_script : pystr := py "/srv/png-emojis/delete_emoji_files.py".
Definition emoji_dir : pystr := py "/srv/png-emojis".

Definition plain_file (name : string) (text : pystr) : pystr * node :=
  (os_path_join emoji_dir (py name), {| content := text; removable := true |}).

Definition locked_file (name : string) (text : pystr) : pystr * node :=
  (os_path_join emoji_dir (py name), {| content := text; removable := false |}).

(** The specification's worked example: the codes file and the directory. *)
Definition worked_content : pystr :=
  pyln "1F600" ++ pyln "1F601-1F3FB" ++ pyln "# 1F602".

Definition worked_listing : list pystr :=
  [py "1F600.png"; py "1F602.png"; py "other.png"].

Definition worked_world : world :=
  {| fs := [ plain_file "hex_codes_to_delete.txt" worked_content;
             plain_file "1F600.png" [];
             plain_file "1F602.png" [];
             plain_file "other.png" [] ];
     stdout := [];
     journal := [] |}.

(** A codes file that holds one commented line. *)
Definition comment_world : world :=
  {| fs := [ plain_file "hex_codes_to_delete.txt" (py "# ABCD1234");
             plain_file "ABCD1234.png" [] ];
     stdout := [];
     journal := [] |}.

(** A codes file without any code in it. *)
Definition no_codes_world : world :=
  {| fs := [ plain_file "hex_codes_to_delete.txt" (pyln "nothing to delete");
             plain_file "1F600.png" [] ];
     stdout := [];
     journal := [] |}.

(** One matched file that cannot be removed and one that can. *)
Definition locked_world : world :=
  {| fs := [ plain_file "hex_codes_to_delete.txt" (pyln "1F600" ++ pyln "1F601");
             locked_file "1F600.png" [];
             plain_file "1F601.png" [];
             plain_file "deleted_files_log.txt" (pyln "Deleted 7 files:") ];
     stdout := [];
     journal := [] |}.

(** A codes file with blank lines, indentation and no final line end. *)
Definition spaced_items : list (pystr * pystr) :=
  [ (py "1F600", [LF; LF]);
    (py "1F601-1F3FB", py "  " ++ [9%N; LF]);
    (py "1F600", [13%N; LF]);
    (py "abcd", []) ].

Definition spaced_world : world :=
  {| fs := [ plain_file "hex_codes_to_delete.txt" ([LF] ++ py " " ++ lay_out spaced_items);
             plain_file "1F600.png" [] ];
     stdout := [];
     journal := [] |}.

(** A codes file that lists file names, one per line. *)
Definition listed_names : list (pystr * pystr * pystr) :=
  [ (py "1F600", py ".png", [LF]);
    (py "1F468-200D-1F469", py ".png", [LF]);
    (py "1f4a9", [], [LF]) ].

Definition names_world : world :=
  {| fs := [ plain_file "hex_codes_to_delete.txt" (lay_out_names listed_names);
             plain_file "1F600.png" [] ];
     stdout := [];
     journal := [] |}.

(** An environment in which nothing fails and the operator types [yes],
    and one in which standard input is at its end (the script run with
    its input redirected from an empty file). *)
Definition says_yes : environment :=
  {| stdin := Some (py "yes"); unreadable := fun _ => false;
     unlistable := fun _ => false; unwritable := fun _ => false |}.

Definition end_of_input : environment :=
  {| stdin := None; unreadable := fun _ => false;
     unlistable := fun _ => false; unwritable := fun _ => false |}.

(** The operator types [yes], but the log's place is taken by something
    that cannot be opened for writing (a directory of that name, a file
    of another owner). *)
Definition log_refused : environment :=
  {| stdin := Some (py "yes"); unreadable := fun _ => false;
     unlistable := fun _ => false;
     unwritable := fun path => str_eqb path (log_path emoji_script) |}.

(** The codes file is there and cannot be read (a directory of that
    name, bytes that are not text). *)
Definition codes_refused : environment :=
  {| stdin := Some (py "yes");
     unreadable := fun path => str_eqb path (codes_path emoji_script);
     unlistable := fun _ => false; unwritable := fun _ => false |}.

(* ================================================================== *)
(** ** Strings: basic facts *)

Lemma str_eqb_eq (a b : pystr) : str_eqb a b = true <-> a = b.
Proof.
  revert b; induction a as [|x a IH]; intros [|y b]; simpl; split;
    try congruence; try reflexivity.
  - intros H. apply andb_true_iff in H as [Hx Hab].
    apply N.eqb_eq in Hx. apply IH in Hab. congruence.
  - intros H. injection H as -> ->. apply andb_true_iff. split.
    + apply N.eqb_refl.
    + now apply IH.
Qed.

Lemma str_eqb_refl (a : pystr) : str_eqb a a = true.
Proof. now apply str_eqb_eq. Qed.

Lemma str_eqb_neq (a b : pystr) : str_eqb a b = false <-> a <> b.
Proof.
  split.
  - intros H E. apply str_eqb_eq in E. congruence.
  - intros H. destruct (str_eqb a b) eqn:E; [|reflexivity].
    apply str_eqb_eq in E. contradiction.
Qed.

Lemma lstrip_id (s : pystr) :
  Forall (fun c => isspace c = false) s -> lstrip s = s.
Proof. intros H. destruct H as [|c s Hc _]; simpl; [reflexivity | now rewrite Hc]. Qed.

Lemma strip_id (s : pystr) :
  Forall (fun c => isspace c = false) s -> strip s = s.
Proof.
  intros H. unfold strip, rstrip. rewrite (lstrip_id H).
  rewrite lstrip_id by now apply Forall_rev. apply rev_involutive.
Qed.

Lemma join_cons (sep g : pystr) (gs : list pystr) :
  join sep (g :: gs) = g ++ concat (map (fun x => sep ++ x) gs).
Proof.
  revert g; induction gs as [|h gs IH]; intros g.
  - simpl. now rewrite app_nil_r.
  - change (join sep (g :: h :: gs)) with (g ++ sep ++ join sep (h :: gs)).
    rewrite IH. simpl. now rewrite <- app_assoc.
Qed.

(* ================================================================== *)
(** ** The matcher is sound for the declarative reading of patterns *)

Lemma last_cons_default {A} (x : A) (l : list A) (d d' : A) :
  last (x :: l) d = last (x :: l) d'.
Proof.
  revert x; induction l as [|y l IH]; intros x; [reflexivity|].
  change (last (y :: l) d = last (y :: l) d'). apply IH.
Qed.

Lemma last_default_app {A} (l1 l2 : list A) (d : A) :
  last (l1 ++ l2) d = last l2 (last l1 d).
Proof.
  induction l1 as [|a l1 IH]; [reflexivity|].
  destruct l1 as [|b l1].
  - destruct l2 as [|c l2]; [reflexivity|].
    change (last (c :: l2) d = last (c :: l2) a). apply last_cons_default.
  - change (last ((a :: b :: l1) ++ l2) d) with (last ((b :: l1) ++ l2) d).
    rewrite IH. reflexivity.
Qed.

Lemma prev_after_app (p : option char) (w1 w2 : pystr) :
  prev_after (prev_after p w1) w2 = prev_after p (w1 ++ w2).
Proof. unfold prev_after. now rewrite map_app, last_default_app. Qed.

Lemma rounds_sound fl r body k :
  sound_for fl r body ->
  forall fuel min st res, rounds body k fuel min st = Some res ->
    exists w st1, rest st = w ++ rest st1
                  /\ prev st1 = prev_after (prev st) w
                  /\ matches fl (MAX_REPEAT min r) (prev st) w
                  /\ k st1 = Some res.
Proof.
  intros Hbody.
  assert (Hstop : forall min st res,
             (if Nat.eqb min 0 then k st else None) = Some res ->
             exists w st1, rest st = w ++ rest st1
                           /\ prev st1 = prev_after (prev st) w
                           /\ matches fl (MAX_REPEAT min r) (prev st) w
                           /\ k st1 = Some res).
  { intros min st res H. destruct (Nat.eqb_spec min 0) as [->|_]; [|discriminate].
    exists [], st. repeat split; [constructor | assumption]. }
  induction fuel as [|fuel IH]; intros min st res H; simpl in H.
  - now apply Hstop.
  - destruct (body st _) as [res'|] eqn:Hround.
    + injection H as ->.
      apply Hbody in Hround as (w1 & st1 & Hrest1 & Hprev1 & Hm1 & Hk1).
      destruct (Nat.ltb _ _); [|discriminate].
      apply IH in Hk1 as (w2 & st2 & Hrest2 & Hprev2 & Hm2 & Hk2).
      exists (w1 ++ w2), st2. repeat split.
      * rewrite Hrest1, Hrest2. apply app_assoc.
      * rewrite Hprev2, Hprev1. apply prev_after_app.
      * apply M_rep_round; [assumption | now rewrite <- Hprev1].
      * assumption.
    + now apply Hstop.
Qed.

Theorem m_sound fl r : sound_for fl r (m fl r).
Proof.
  induction r as [|items|r1 IH1 r2 IH2|r1 IH1 r2 IH2|min r IH|r IH];
    intros st k res H; simpl in H.
  - destruct (at_beginning fl (prev st)) eqn:Hat; [|discriminate].
    exists [], st. repeat split; [now constructor | assumption].
  - destruct (rest st) as [|c tl] eqn:Hrest; [discriminate|].
    destruct (charset fl items c) eqn:Hc; [|discriminate].
    exists [c], (advance st c tl). repeat split; [now constructor | assumption].
  - apply IH1 in H as (w1 & st1 & Hrest1 & Hprev1 & Hm1 & H).
    apply IH2 in H as (w2 & st2 & Hrest2 & Hprev2 & Hm2 & H).
    exists (w1 ++ w2), st2. repeat split.
    + rewrite Hrest1, Hrest2. apply app_assoc.
    + rewrite Hprev2, Hprev1. apply prev_after_app.
    + apply M_seq; [assumption | now rewrite <- Hprev1].
    + assumption.
  - destruct (m fl r1 st k) as [res'|] eqn:Hleft.
    + injection H as ->.
      apply IH1 in Hleft as (w & st1 & ? & ? & ? & ?).
      exists w, st1. repeat split; try assumption. now apply M_branch_l.
    + apply IH2 in H as (w & st1 & ? & ? & ? & ?).
      exists w, st1. repeat split; try assumption. now apply M_branch_r.
  - exact (rounds_sound k IH _ _ _ H).
  - apply IH in H as (w & st1 & ? & ? & ? & ?).
    exists w, (set_group st1 (consumed st st1)).
    repeat split; try assumption. now apply M_sub.
Qed.

(** The text a match took is what lies between its two states. *)
Lemma consumed_prefix (st st1 : mstate) (w : pystr) :
  rest st = w ++ rest st1 -> consumed st st1 = w.
Proof.
  intros H. unfold consumed. rewrite H, length_app.
  replace (length w + length (rest st1) - length (rest st1)) with (length w) by lia.
  rewrite firstn_app, Nat.sub_diag, firstn_all. simpl. apply app_nil_r.
Qed.

(** A property of every group text the matcher can report holds of
    every element [findall] returns. *)
Lemma scan_Forall (P : pystr -> Prop) fl r :
  (forall st res, m fl r st Some = Some res -> P (group_text res)) ->
  forall fuel p s, Forall P (scan fuel fl r p s).
Proof.
  intros HP. induction fuel as [|fuel IH]; intros p s; simpl.
  - constructor.
  - assert (Hstep : Forall P match s with
                             | [] => []
                             | c :: tl => scan fuel fl r (Some c) tl
                             end)
      by (destruct s; [constructor | apply IH]).
    destruct (m fl r (start p s) Some) as [res|] eqn:Hm; [|assumption].
    apply HP in Hm. destruct (Nat.ltb _ _); constructor; auto.
Qed.

(* ================================================================== *)
(** ** The fuel of the matcher and of the scan is never used up *)

Lemma rounds_local body :
  local body -> forall fuel min, local (fun st k => rounds body k fuel min st).
Proof.
  intros Hbody. induction fuel as [|fuel IH]; intros min st k1 k2 Hk; simpl.
  - now rewrite (Hk st (le_n _)).
  - rewrite (Hk st (le_n _)).
    match goal with
    | |- match body st ?K1 with _ => _ end = match body st ?K2 with _ => _ end =>
        rewrite (Hbody st K1 K2); [reflexivity|]
    end.
    intros st1 Hst1. destruct (Nat.ltb _ _); [|reflexivity].
    apply IH. intros st2 Hst2. apply Hk. lia.
Qed.

Lemma m_local fl r : local (m fl r).
Proof.
  induction r as [|items|r1 IH1 r2 IH2|r1 IH1 r2 IH2|min r IH|r IH];
    intros st k1 k2 Hk; simpl.
  - now rewrite (Hk st (le_n _)).
  - destruct (rest st) as [|c tl] eqn:Hrest; [reflexivity|].
    rewrite (Hk (advance st c tl)); [reflexivity | simpl; lia].
  - apply IH1. intros st1 Hst1. apply IH2. intros st2 Hst2. apply Hk. lia.
  - rewrite (IH1 st k1 k2 Hk), (IH2 st k1 k2 Hk). reflexivity.
  - now apply (rounds_local IH).
  - apply IH. intros st1 Hst1. now apply Hk.
Qed.

(** Any fuel that covers the remaining text gives the same rounds. *)
Lemma rounds_fuel fl r body k :
  sound_for fl r body -> local body ->
  forall n st f1 f2 min,
    length (rest st) <= n -> length (rest st) <= f1 -> length (rest st) <= f2 ->
    rounds body k f1 min st = rounds body k f2 min st.
Proof.
  intros Hsound Hlocal.
  assert (Hend : forall st (K : mstate -> option mstate),
             (forall st1, length (rest st1) <= length (rest st) -> K st1 = None) ->
             body st K = None).
  { intros st K HK. destruct (body st K) as [res|] eqn:E; [|reflexivity].
    apply Hsound in E as (w & st1 & Hrest & _ & _ & E).
    rewrite HK in E; [discriminate|]. rewrite Hrest, length_app. lia. }
  induction n as [|n IH]; intros st f1 f2 min Hn H1 H2.
  - assert (Hnone : forall f, body st (fun st1 =>
               if Nat.ltb (length (rest st1)) (length (rest st))
               then rounds body k f (Nat.pred min) st1 else None) = None).
    { intros f. apply Hend. intros st1 _.
      replace (length (rest st)) with 0 by lia. reflexivity. }
    destruct f1, f2; simpl; rewrite ?Hnone; reflexivity.
  - destruct f1 as [|f1], f2 as [|f2]; simpl.
    + reflexivity.
    + rewrite Hend; [reflexivity|]. intros st1 _.
      replace (length (rest st)) with 0 by lia. reflexivity.
    + rewrite Hend; [reflexivity|]. intros st1 _.
      replace (length (rest st)) with 0 by lia. reflexivity.
    + match goal with
      | |- match body st ?K1 with _ => _ end = match body st ?K2 with _ => _ end =>
          rewrite (Hlocal st K1 K2); [reflexivity|]
      end.
      intros st1 _. destruct (Nat.ltb_spec (length (rest st1)) (length (rest st)));
        [|reflexivity].
      apply IH; lia.
Qed.

(** Any fuel above the length of the text gives the same scan: [findall]
    reports every match up to the end of the text. *)
Lemma scan_fuel fl r :
  forall n s p f1 f2,
    length s <= n -> length s < f1 -> length s < f2 ->
    scan f1 fl r p s = scan f2 fl r p s.
Proof.
  induction n as [|n IH]; intros s p f1 f2 Hn H1 H2;
    (destruct f1 as [|f1]; [lia|]); (destruct f2 as [|f2]; [lia|]); simpl.
  - destruct s; [|simpl in Hn; lia].
    destruct (m fl r (start p []) Some) as [res|] eqn:E; [|reflexivity].
    apply m_sound in E as (w & st1 & Hrest & _ & _ & E). injection E as ->.
    simpl in Hrest. destruct w; [|discriminate]. simpl in Hrest. rewrite <- Hrest.
    reflexivity.
  - assert (Hstep : match s with [] => [] | c :: tl => scan f1 fl r (Some c) tl end
                    = match s with [] => [] | c :: tl => scan f2 fl r (Some c) tl end).
    { destruct s as [|c tl]; [reflexivity|]. simpl in *. apply IH; lia. }
    rewrite Hstep.
    destruct (m fl r (start p s) Some) as [res|] eqn:E; [|reflexivity].
    destruct (Nat.ltb_spec (length (rest res)) (length s)); [|reflexivity].
    f_equal. apply IH; lia.
Qed.

Corollary findall_any_fuel (r : re) (s : pystr) (fl : flags) (fuel : nat) :
  length s < fuel -> scan fuel fl r None s = findall r s fl.
Proof. intros H. unfold findall. apply (scan_fuel fl r (n := length s)); lia. Qed.

(** The repetition in [m] may be given any fuel that covers the text. *)
Corollary max_repeat_any_fuel fl (min : nat) (r : re) (st : mstate)
  (k : mstate -> option mstate) (fuel : nat) :
  length (rest st) <= fuel ->
  rounds (m fl r) k fuel min st = m fl (MAX_REPEAT min r) st k.
Proof.
  intros H. simpl.
  apply (rounds_fuel k (m_sound fl r) (m_local fl r) (n := length (rest st))); lia.
Qed.

(* ================================================================== *)
(** ** What the Code Reader's pattern captures *)

(** Boolean range tests on code points, turned into arithmetic. *)
Ltac bool_lia :=
  cbv [between char_eqb] in *;
  rewrite ?orb_true_iff, ?andb_true_iff, ?orb_false_iff, ?andb_false_iff,
    ?N.leb_le, ?N.leb_gt, ?N.eqb_eq, ?N.eqb_neq in *;
  lia.

Ltac code_points :=
  change (ch "0") with 48%N in *; change (ch "9") with 57%N in *;
  change (ch "A") with 65%N in *; change (ch "F") with 70%N in *;
  change (ch "Z") with 90%N in *; change (ch "a") with 97%N in *;
  change (ch "f") with 102%N in *; change (ch "z") with 122%N in *;
  change (ch "#") with 35%N in *; change (ch "-") with 45%N in *.

Lemma charset_hex_digits (c : char) :
  charset hex_flags [RANGE (ch "0") (ch "9"); RANGE (ch "A") (ch "F")] c = true ->
  is_hex_digit c = true.
Proof.
  cbv [charset existsb item_mem item_has hex_flags IGNORECASE is_hex_digit
       ascii_lower ascii_upper is_upper_ascii is_lower_ascii].
  code_points. rewrite !andb_true_l, orb_false_r.
  destruct (between 65%N 90%N c) eqn:Hu; destruct (between 97%N 122%N c) eqn:Hl;
    intros H; bool_lia.
Qed.

Lemma charset_hyphen (c : char) :
  charset hex_flags [LITERAL (ch "-")] c = true -> c = ch "-".
Proof.
  cbv [charset existsb item_mem item_has hex_flags IGNORECASE
       ascii_lower ascii_upper is_upper_ascii is_lower_ascii].
  code_points. rewrite !andb_true_l, orb_false_r.
  destruct (between 65%N 90%N c) eqn:Hu; destruct (between 97%N 122%N c) eqn:Hl;
    intros H; bool_lia.
Qed.

Lemma hex_digit_not_space (c : char) : is_hex_digit c = true -> isspace c = false.
Proof. cbv [is_hex_digit isspace]. code_points. intros H. bool_lia. Qed.

Lemma hex_digit_not_hash (c : char) : is_hex_digit c = true -> char_eqb (ch "#") c = false.
Proof. cbv [is_hex_digit]. code_points. intros H. bool_lia. Qed.

(** [[0-9A-F]{n,}] matches runs of at least [n] hexadecimal digits. *)
Lemma matches_hex_run (n : nat) (p : option char) (w : pystr) :
  matches hex_flags (MAX_REPEAT n hex_digits) p w ->
  n <= length w /\ Forall (fun c => is_hex_digit c = true) w.
Proof.
  intros H. remember (MAX_REPEAT n hex_digits) as r eqn:Er.
  revert n Er. induction H; intros n Er; try discriminate.
  - injection Er as <-. split; [lia | constructor].
  - injection Er as -> ->.
    destruct (IHmatches2 _ eq_refl) as [Hlen Hall].
    inversion H; subst. split.
    + simpl. lia.
    + constructor; [now apply charset_hex_digits | assumption].
Qed.

(** The starred group matches a sequence of hyphen-led groups. *)
Lemma matches_hyphen_groups (n : nat) (p : option char) (w : pystr) :
  matches hex_flags
    (MAX_REPEAT n (SEQ (IN [LITERAL (ch "-")]) (MAX_REPEAT 4 hex_digits))) p w ->
  exists gs, Forall hex_group gs /\ w = concat (map (fun g => py "-" ++ g) gs).
Proof.
  intros H.
  remember (MAX_REPEAT n (SEQ (IN [LITERAL (ch "-")]) (MAX_REPEAT 4 hex_digits)))
    as r eqn:Er.
  revert n Er. induction H; intros n Er; try discriminate.
  - exists []. split; [constructor | reflexivity].
  - injection Er as -> ->.
    destruct (IHmatches2 _ eq_refl) as (gs & Hgs & ->).
    inversion H; subst.
    match goal with Hs : matches _ (IN _) _ _ |- _ => inversion Hs; subst end.
    match goal with Hr : matches _ (MAX_REPEAT 4 _) _ _ |- _ =>
      apply matches_hex_run in Hr end.
    match goal with Hc : charset _ [LITERAL _] _ = true |- _ =>
      apply charset_hyphen in Hc as ->
    end.
    exists (w2 :: gs). split; [now constructor | reflexivity].
Qed.

(** Whatever the pattern captures is a hex code. *)
Lemma hex_pattern_group (st res : mstate) :
  m hex_flags hex_pattern st Some = Some res ->
  exists g, group1 res = Some g /\ hex_code g.
Proof.
  intros H. unfold hex_pattern in H.
  change (m hex_flags (SEQ ?a ?b) st Some)
    with (m hex_flags a st (fun st0 => m hex_flags b st0 Some)) in H.
  apply m_sound in H as (w0 & st0 & _ & _ & _ & H).
  change (m hex_flags (SUBPATTERN ?r) st0 Some)
    with (m hex_flags r st0 (fun st1 => Some (set_group st1 (consumed st0 st1)))) in H.
  apply m_sound in H as (w & st1 & Hrest & _ & Hm & H).
  injection H as <-. exists (consumed st0 st1). split; [reflexivity|].
  rewrite (consumed_prefix _ _ _ Hrest).
  inversion Hm; subst.
  match goal with Hr : matches _ (MAX_REPEAT 4 _) _ _ |- _ =>
    apply matches_hex_run in Hr end.
  match goal with Hr : matches _ (MAX_REPEAT 0 _) _ _ |- _ =>
    apply matches_hyphen_groups in Hr as (gs & Hgs & ->) end.
  exists (w1 :: gs). split; [discriminate|]. split; [now constructor|].
  now rewrite join_cons.
Qed.

(** A hex code has no whitespace in it, is not empty and does not start
    with the comment marker. *)
Lemma hex_code_no_space (s : pystr) :
  hex_code s -> Forall (fun c => isspace c = false) s.
Proof.
  intros (groups & Hne & Hall & ->).
  destruct groups as [|g gs]; [contradiction|].
  rewrite join_cons. inversion Hall as [|? ? [_ Hg] Hgs]; subst.
  apply Forall_app. split.
  - eapply Forall_impl; [|exact Hg]. apply hex_digit_not_space.
  - clear Hall Hne Hg. induction Hgs as [|h gs [_ Hh] _ IH]; simpl.
    + constructor.
    + constructor; [reflexivity|].
      apply Forall_app. split; [|exact IH].
      eapply Forall_impl; [|exact Hh]. apply hex_digit_not_space.
Qed.

Lemma hex_code_head (s : pystr) :
  hex_code s -> exists c s', s = c :: s' /\ is_hex_digit c = true.
Proof.
  intros (groups & Hne & Hall & ->).
  destruct groups as [|g gs]; [contradiction|].
  rewrite join_cons. inversion Hall as [|? ? [Hlen Hg] _]; subst.
  destruct Hg as [|c g Hc _]; [simpl in Hlen; lia|].
  exists c, (g ++ concat (map (fun x => py "-" ++ x) gs)). now split.
Qed.

(** Neither test of the clean-up loop fires on a hex code, and stripping
    leaves it as it is. *)
Lemma hex_code_kept (s : pystr) :
  hex_code s ->
  strip s = s /\ startswith (strip s) (py "#") || str_eqb (strip s) [] = false.
Proof.
  intros H. rewrite (strip_id (hex_code_no_space H)). split; [reflexivity|].
  destruct (hex_code_head H) as (c & s' & -> & Hc).
  change (startswith (c :: s') (py "#"))
    with (char_eqb (ch "#") c && startswith s' []).
  now rewrite (hex_digit_not_hash _ Hc).
Qed.

Lemma clean_codes_id (hex_codes : list pystr) :
  Forall hex_code hex_codes -> clean_codes hex_codes = hex_codes.
Proof.
  unfold clean_codes. intros H.
  enough (G : forall acc,
             fold_left
               (fun cleaned_codes code =>
                  if startswith (strip code) (py "#") || str_eqb (strip code) []
                  then cleaned_codes else cleaned_codes ++ [strip code])
               hex_codes acc = acc ++ hex_codes) by apply (G []).
  induction H as [|code codes Hcode _ IH]; intros acc; simpl.
  - now rewrite app_nil_r.
  - destruct (hex_code_kept Hcode) as [Hs Hkeep].
    change (map ch (list_ascii_of_string "#")) with (py "#").
    rewrite Hkeep, Hs, IH, <- app_assoc. reflexivity.
Qed.

Lemma findall_hex_codes (content : pystr) :
  Forall hex_code (findall hex_pattern content hex_flags).
Proof.
  apply scan_Forall. intros st res H.
  apply hex_pattern_group in H as (g & Hg & Hcode).
  unfold group_text. now rewrite Hg.
Qed.

(* ================================================================== *)
(** ** The file system and the effects of the primitives *)

Lemma lookup_unlink_other (p q : pystr) (files : filesystem) :
  p <> q -> lookup p (unlink q files) = lookup p files.
Proof.
  intros Hpq. induction files as [|[k n] files IH]; simpl; [reflexivity|].
  destruct (str_eqb k q) eqn:Ekq; simpl.
  - apply str_eqb_eq in Ekq. subst k.
    destruct (str_eqb q p) eqn:Eqp; [|exact IH].
    apply str_eqb_eq in Eqp. congruence.
  - now rewrite IH.
Qed.

Lemma lookup_unlink_same (p : pystr) (files : filesystem) :
  lookup p (unlink p files) = None.
Proof.
  induction files as [|[k n] files IH]; simpl; [reflexivity|].
  destruct (str_eqb k p) eqn:E; simpl; [exact IH | now rewrite E].
Qed.

Lemma lookup_unlink_none (p q : pystr) (files : filesystem) :
  lookup p files = None -> lookup p (unlink q files) = None.
Proof.
  intros H. destruct (str_eqb p q) eqn:E.
  - apply str_eqb_eq in E. subst q. apply lookup_unlink_same.
  - apply str_eqb_neq in E. now rewrite lookup_unlink_other.
Qed.

Lemma lookup_store_same (p text : pystr) (files : filesystem) :
  exists n, lookup p (store p text files) = Some n /\ content n = text.
Proof.
  induction files as [|[k n] files IH]; simpl.
  - rewrite str_eqb_refl. eexists. split; reflexivity.
  - destruct (str_eqb k p) eqn:E; simpl; rewrite E; [|exact IH].
    eexists. split; reflexivity.
Qed.

Lemma say_nil (w : world) : say w [] = w.
Proof. destruct w. unfold say. simpl. now rewrite app_nil_r. Qed.

Lemma say_say (w : world) (a b : list pystr) : say (say w a) b = say w (a ++ b).
Proof. unfold say. simpl. now rewrite app_assoc. Qed.

Lemma print_run (s : pystr) (w : world) : print s w = (Ok tt, say w [s ++ [LF]]).
Proof. reflexivity. Qed.

Lemma for_each_print {X} (xs : list X) (line : X -> pystr) (w : world) :
  for_each xs tt (fun _ x => print (line x)) w
  = (Ok tt, say w (map (fun x => line x ++ [LF]) xs)).
Proof.
  revert w; induction xs as [|x xs IH]; intros w; simpl.
  - unfold ret. now rewrite say_nil.
  - unfold bind. rewrite print_run, IH, say_say. reflexivity.
Qed.

(* ================================================================== *)
(** ** The Deleter *)

Section Deleter.

Variable exn_str : OSError -> pystr.

(** One round of the loop with dry-run off: the file is removed and
    recorded, or the error is caught and reported; either way the round
    ends normally. *)
Lemma delete_round (acc : list pystr) (file_path : pystr) (w : world) :
  let done := can_remove (fs w) file_path in
  exists line,
    reported exn_str (file_path, done) line
    /\ delete_files_body exn_str false acc file_path w
       = (Ok (if done then acc ++ [os_path_basename file_path] else acc),
          {| fs := if done then unlink file_path (fs w) else fs w;
             stdout := stdout w ++ [line];
             journal := journal w ++ [UNLINK file_path done] |}).
Proof.
  unfold delete_files_body, try_except, bind, os_remove, can_remove, reported.
  destruct (lookup file_path (fs w)) as [n|]; [destruct (removable n)|]; simpl;
    eexists; (split; [|reflexivity]); eauto.
Qed.

(** The whole loop, started with [acc] already in the list. *)
Lemma delete_loop (files : list pystr) :
  forall (acc : list pystr) (w : world),
  exists outcomes reports,
    for_each files acc (delete_files_body exn_str false) w
    = (Ok (acc ++ map os_path_basename (removed outcomes)),
       {| fs := unlink_all (removed outcomes) (fs w);
          stdout := stdout w ++ reports;
          journal := journal w ++ attempts outcomes |})
    /\ map fst outcomes = files
    /\ Forall2 (reported exn_str) outcomes reports
    /\ (forall pre o post, outcomes = pre ++ o :: post ->
          snd o = can_remove (unlink_all (removed pre) (fs w)) (fst o)).
Proof.
  induction files as [|file_path files IH]; intros acc w.
  - exists [], []. simpl. repeat split.
    + unfold ret. destruct w. simpl. now rewrite !app_nil_r.
    + constructor.
    + intros [|? ?] ? ? H; discriminate.
  - destruct (delete_round acc file_path w) as (line & Hline & Hround).
    simpl in Hround. simpl. unfold bind at 1. rewrite Hround.
    set (done := can_remove (fs w) file_path) in *.
    match goal with
    | |- context [for_each files ?a _ ?w1] =>
        destruct (IH a w1) as (outcomes & reports & Hrun & Hpaths & Hreports & Hturn)
    end.
    exists ((file_path, done) :: outcomes), (line :: reports).
    rewrite Hrun. simpl fs in *. simpl stdout. simpl journal. repeat split.
    + f_equal.
      * f_equal. unfold removed. simpl. destruct done; simpl;
          [now rewrite <- app_assoc | reflexivity].
      * f_equal.
        -- unfold removed. simpl. destruct done; reflexivity.
        -- now rewrite <- app_assoc.
        -- unfold attempts. simpl. now rewrite <- app_assoc.
    + simpl. now rewrite Hpaths.
    + now constructor.
    + intros [|o' pre] o post H; simpl in H; injection H as <- ->.
      * reflexivity.
      * rewrite (Hturn pre o post eq_refl). unfold removed. simpl.
        destruct done; reflexivity.
Qed.

(** With dry-run on the loop only prints. *)
Lemma dry_loop (files : list pystr) :
  forall (acc : list pystr) (w : world),
    for_each files acc (delete_files_body exn_str true) w
    = (Ok acc, say w (map (fun file_path => (py "Would delete: " ++ file_path) ++ [LF]) files)).
Proof.
  induction files as [|file_path files IH]; intros acc w; simpl.
  - unfold ret. now rewrite say_nil.
  - unfold bind at 1. unfold delete_files_body at 1. unfold bind at 1.
    rewrite print_run. unfold ret at 1. rewrite IH, say_say. reflexivity.
Qed.

End Deleter.

(* ================================================================== *)
(** ** Deleting distinct files *)

Lemma can_remove_unlink_all (paths : list pystr) (files : filesystem) (p : pystr) :
  ~ In p paths -> can_remove (unlink_all paths files) p = can_remove files p.
Proof.
  revert files; induction paths as [|q paths IH]; intros files Hp; simpl.
  - reflexivity.
  - rewrite IH by (intros H; apply Hp; now right).
    unfold can_remove. rewrite lookup_unlink_other; [reflexivity|].
    intros ->. apply Hp. now left.
Qed.

(** The files that were unlinked are gone, the others are as they were. *)
Lemma unlink_all_gone (paths : list pystr) (files : filesystem) (p : pystr) :
  In p paths -> lookup p (unlink_all paths files) = None.
Proof.
  revert files; induction paths as [|q paths IH]; intros files Hp; [contradiction|].
  simpl. destruct (in_dec (list_eq_dec N.eq_dec) p paths) as [Hin|Hout].
  - now apply IH.
  - destruct Hp as [->|Hp]; [|contradiction].
    assert (G : forall l f, lookup p f = None -> lookup p (unlink_all l f) = None).
    { clear. induction l as [|q l IH]; intros f H; simpl; [assumption|].
      apply IH. now apply lookup_unlink_none. }
    apply G, lookup_unlink_same.
Qed.

Lemma unlink_all_other (paths : list pystr) (files : filesystem) (p : pystr) :
  ~ In p paths -> lookup p (unlink_all paths files) = lookup p files.
Proof.
  revert files; induction paths as [|q paths IH]; intros files Hp; simpl.
  - reflexivity.
  - rewrite IH by (intros H; apply Hp; now right).
    apply lookup_unlink_other. intros ->. apply Hp. now left.
Qed.

Lemma removed_incl (outcomes : list (pystr * bool)) (p : pystr) :
  In p (removed outcomes) -> In p (map fst outcomes).
Proof.
  unfold removed. intros H. apply in_map_iff in H as (o & <- & Ho).
  apply filter_In in Ho as [Ho _]. now apply in_map.
Qed.

Lemma outcomes_determined (f : pystr -> bool) (outcomes : list (pystr * bool)) :
  (forall o, In o outcomes -> snd o = f (fst o)) ->
  outcomes = map (fun p => (p, f p)) (map fst outcomes).
Proof.
  induction outcomes as [|[p b] outcomes IH]; intros H; simpl; [reflexivity|].
  rewrite <- IH by (intros o Ho; apply H; now right).
  pose proof (H (p, b) (or_introl eq_refl)) as Hb. simpl in Hb. now rewrite <- Hb.
Qed.

(** When the paths are distinct, each deletion succeeds or fails as it
    would have on the initial file system: no attempt affects another. *)
Lemma delete_files_distinct (exn_str : OSError -> pystr) (files : list pystr)
  (w : world) :
  NoDup files ->
  exists reports,
    delete_files exn_str files false w
    = (Ok (map os_path_basename (filter (can_remove (fs w)) files)),
       {| fs := unlink_all (filter (can_remove (fs w)) files) (fs w);
          stdout := stdout w ++ reports;
          journal := journal w
                     ++ map (fun p => UNLINK p (can_remove (fs w) p)) files |})
    /\ length reports = length files.
Proof.
  intros Hnodup.
  destruct (delete_loop exn_str files [] w)
    as (outcomes & reports & Hrun & Hpaths & Hreports & Hturn).
  assert (Hout : outcomes = map (fun p => (p, can_remove (fs w) p)) files).
  { rewrite <- Hpaths. apply outcomes_determined. intros o Ho.
    apply in_split in Ho as (pre & post & ->).
    rewrite (Hturn pre o post eq_refl). apply can_remove_unlink_all.
    intros Hin. apply removed_incl in Hin.
    rewrite <- Hpaths, map_app in Hnodup. simpl in Hnodup.
    apply NoDup_remove_2 in Hnodup. apply Hnodup, in_or_app. now left. }
  assert (Hrem : removed outcomes = filter (can_remove (fs w)) files).
  { rewrite Hout. unfold removed. clear.
    induction files as [|p files IH]; simpl; [reflexivity|].
    destruct (can_remove (fs w) p); simpl; now rewrite IH. }
  exists reports. unfold delete_files. rewrite Hrun, Hrem. split.
  - simpl. do 3 f_equal. rewrite Hout. unfold attempts. now rewrite map_map.
  - apply Forall2_length in Hreports. rewrite <- Hreports, Hout. apply length_map.
Qed.

(* ================================================================== *)
(** ** The Matcher *)

Lemma matching_in_filter (listing : list pystr) (directory : pystr)
  (hex_codes : list pystr) :
  matching_in listing directory hex_codes
  = map (os_path_join directory)
      (filter (fun filename => str_in filename (map (fun code => code ++ py ".png") hex_codes))
         listing).
Proof.
  unfold matching_in.
  set (patterns := map (fun code => code ++ py ".png") hex_codes).
  enough (G : forall acc,
             fold_left
               (fun matching_files filename =>
                  if str_in filename patterns
                  then matching_files ++ [os_path_join directory filename]
                  else matching_files) listing acc
             = acc ++ map (os_path_join directory)
                        (filter (fun filename => str_in filename patterns) listing))
    by apply (G []).
  induction listing as [|filename listing IH]; intros acc; simpl.
  - now rewrite app_nil_r.
  - rewrite IH. destruct (str_in filename patterns); simpl;
      [now rewrite <- app_assoc | reflexivity].
Qed.

Lemma existsb_over_map {A B} (f : B -> bool) (g : A -> B) (l : list A) :
  existsb f (map g l) = existsb (fun x => f (g x)) l.
Proof. induction l as [|x l IH]; simpl; [reflexivity | now rewrite IH]. Qed.

Lemma matching_in_no_codes (listing : list pystr) (directory : pystr) :
  matching_in listing directory [] = [].
Proof.
  rewrite matching_in_filter. simpl.
  induction listing as [|filename listing IH]; [reflexivity | exact IH].
Qed.

(* ================================================================== *)
(** ** One run of [main] *)

Lemma input_run (answer prompt : pystr) (w : world) :
  input answer prompt w = (Ok answer, say w [prompt]).
Proof. reflexivity. Qed.

Lemma bind_ok {A B} (c : io A) (k : A -> io B) (w w' : world) (a : A) :
  c w = (Ok a, w') -> bind c k w = k a w'.
Proof. unfold bind. now intros ->. Qed.

Section Main.

Variable exn_str : OSError -> pystr.
Variable unicode_lower : pystr -> pystr.

Lemma main_run (script_path answer : pystr) (w : world) :
  main exn_str unicode_lower script_path answer w =
  match lookup (codes_path script_path) (fs w) with
  | None =>
      (Raise (SystemExit 1),
       say w [(py "Error: Hex codes file not found at " ++ codes_path script_path) ++ [LF]])
  | Some n =>
      let matching_files := matched script_path (content n) (fs w) in
      let w1 := say w (found_lines (extract_hex_codes (content n)) matching_files) in
      match matching_files with
      | [] => (Ok tt, say w1 [py "No matching files found to delete." ++ [LF]])
      | _ :: _ =>
          let w2 := say w1 (prompt_lines matching_files) in
          if str_eqb (lower unicode_lower answer) (py "yes")
          then
            match delete_files exn_str matching_files false w2 with
            | (Ok deleted, w3) =>
                (Ok tt,
                 say {| fs := store (log_path script_path) (log_text deleted) (fs w3);
                        stdout := stdout w3;
                        journal := journal w3
                                   ++ [WRITE (log_path script_path) (log_text deleted)] |}
                   [done_line deleted (log_path script_path)])
            | (Raise e, w3) => (Raise e, w3)
            end
          else (Ok tt, say w2 [py "Operation cancelled." ++ [LF]])
      end
  end.
Proof.
  unfold main, codes_path, log_path, matched.
  set (directory := os_path_dirname script_path).
  set (hex_codes_file := os_path_join directory (py "hex_codes_to_delete.txt")).
  unfold bind at 1. unfold get_fs at 1. unfold os_path_exists.
  destruct (lookup hex_codes_file (fs w)) as [n|] eqn:Hfile.
  - erewrite bind_ok by reflexivity.
    erewrite bind_ok
      by (unfold read_hex_codes, bind, read_text; rewrite Hfile; reflexivity).
    erewrite bind_ok by apply print_run.
    erewrite bind_ok by reflexivity.
    erewrite bind_ok by apply print_run.
    rewrite say_say. change (fs (say w ?c)) with (fs w).
    change ([?a] ++ [?b]) with [a; b]. fold (found_lines (extract_hex_codes (content n))
      (matching_in (os_listdir (fs w) directory) directory (extract_hex_codes (content n)))).
    set (matching_files := matching_in _ _ _).
    set (w1 := say w _).
    destruct matching_files as [|file rest]; [reflexivity|].
    erewrite bind_ok by apply print_run.
    erewrite bind_ok by apply for_each_print.
    erewrite bind_ok by apply input_run.
    match goal with
    | |- _ ?w2' = _ =>
        replace w2' with (say w1 (prompt_lines (file :: rest)))
          by (rewrite !say_say; unfold prompt_lines; now rewrite <- ?app_assoc)
    end.
    set (w2 := say w1 _).
    destruct (str_eqb (lower unicode_lower answer) (py "yes")).
    + unfold bind at 1.
      destruct (delete_files exn_str (file :: rest) false w2) as [[deleted|e] w3];
        [|reflexivity].
      erewrite bind_ok by reflexivity. rewrite print_run. reflexivity.
    + apply print_run.
  - reflexivity.
Qed.

End Main.

(* ================================================================== *)
(** ** One run of [main_in] *)

Lemma input_line_run (env : environment) (prompt : pystr) (w : world) :
  input_line env prompt w
  = (match stdin env with Some line => Ok line | None => Raise EOFError end,
     say w [prompt]).
Proof. unfold input_line, bind, emit, ret, raise, say. now destruct (stdin env). Qed.

Lemma bind_raise {A B} (c : io A) (k : A -> io B) (w w' : world) (e : exn) :
  c w = (Raise e, w') -> bind c k w = (Raise e, w').
Proof. unfold bind. now intros ->. Qed.

Section MainIn.

Variable exn_str : OSError -> pystr.
Variable unicode_lower : pystr -> pystr.

(** A run of [main_in], by the branch it takes. *)
Lemma main_in_run (env : environment) (script_path : pystr) (w : world) :
  main_in exn_str unicode_lower env script_path w =
  match lookup (codes_path script_path) (fs w) with
  | None =>
      (Raise (SystemExit 1),
       say w [(py "Error: Hex codes file not found at " ++ codes_path script_path) ++ [LF]])
  | Some n =>
      if unreadable env (codes_path script_path)
      then (Raise (OpenError (codes_path script_path)), w)
      else
      if unlistable env (os_path_dirname script_path)
      then (Raise (OpenError (os_path_dirname script_path)),
            say w [(py "Found " ++ str_of_nat (length (extract_hex_codes (content n)))
                    ++ py " hex codes to process") ++ [LF]])
      else
      let matching_files := matched script_path (content n) (fs w) in
      let w1 := say w (found_lines (extract_hex_codes (content n)) matching_files) in
      match matching_files with
      | [] => (Ok tt, say w1 [py "No matching files found to delete." ++ [LF]])
      | _ :: _ =>
          let w2 := say w1 (prompt_lines matching_files) in
          match stdin env with
          | None => (Raise EOFError, w2)
          | Some answer =>
              if str_eqb (lower unicode_lower answer) (py "yes")
              then
                match delete_files exn_str matching_files false w2 with
                | (Ok deleted, w3) =>
                    if unwritable env (log_path script_path)
                    then (Raise (OpenError (log_path script_path)), w3)
                    else
                      (Ok tt,
                       say {| fs := store (log_path script_path) (log_text deleted) (fs w3);
                              stdout := stdout w3;
                              journal := journal w3
                                         ++ [WRITE (log_path script_path) (log_text deleted)] |}
                         [done_line deleted (log_path script_path)])
                | (Raise e, w3) => (Raise e, w3)
                end
              else (Ok tt, say w2 [py "Operation cancelled." ++ [LF]])
          end
      end
  end.
Proof.
  unfold main_in, codes_path, log_path, matched.
  set (directory := os_path_dirname script_path).
  set (hex_codes_file := os_path_join directory (py "hex_codes_to_delete.txt")).
  unfold bind at 1. unfold get_fs at 1. unfold os_path_exists.
  destruct (lookup hex_codes_file (fs w)) as [n|] eqn:Hfile; [|reflexivity].
  erewrite bind_ok by reflexivity.
  destruct (unreadable env hex_codes_file) eqn:Hread.
  { apply bind_raise. unfold read_hex_codes_in, bind, read_text_in.
    now rewrite Hfile, Hread. }
  erewrite bind_ok
    by (unfold read_hex_codes_in, bind, read_text_in; rewrite Hfile, Hread; reflexivity).
  erewrite bind_ok by apply print_run.
  destruct (unlistable env directory) eqn:Hlist.
  { apply bind_raise. unfold find_matching_files_in, bind, get_fs.
    now rewrite Hlist. }
  erewrite bind_ok
    by (unfold find_matching_files_in, bind, get_fs; rewrite Hlist; reflexivity).
  erewrite bind_ok by apply print_run.
  rewrite say_say. change (fs (say w ?c)) with (fs w).
  change ([?a] ++ [?b]) with [a; b]. fold (found_lines (extract_hex_codes (content n))
    (matching_in (os_listdir (fs w) directory) directory (extract_hex_codes (content n)))).
  set (matching_files := matching_in _ _ _).
  set (w1 := say w _).
  destruct matching_files as [|file rest]; [reflexivity|].
  erewrite bind_ok by apply print_run.
  erewrite bind_ok by apply for_each_print.
  unfold bind at 1. rewrite input_line_run.
  match goal with
  | |- context [say (say (say w1 ?a) ?b) ?c] =>
      replace (say (say (say w1 a) b) c) with (say w1 (prompt_lines (file :: rest)))
        by (rewrite !say_say; unfold prompt_lines; now rewrite <- ?app_assoc)
  end.
  set (w2 := say w1 _).
  destruct (stdin env) as [answer|]; [|reflexivity].
  destruct (str_eqb (lower unicode_lower answer) (py "yes")).
  - unfold bind at 1.
    destruct (delete_files exn_str (file :: rest) false w2) as [[deleted|e] w3];
      [|reflexivity].
    unfold write_text_in.
    destruct (unwritable env (os_path_join directory (py "deleted_files_log.txt")));
      [reflexivity|].
    erewrite bind_ok by reflexivity. rewrite print_run. reflexivity.
  - apply print_run.
Qed.

(** Where nothing fails and the operator gives [answer], [main_in] is
    [main]. *)
Lemma main_in_main (env : environment) (script_path answer : pystr) (w : world) :
  stdin env = Some answer ->
  unreadable env (codes_path script_path) = false ->
  unlistable env (os_path_dirname script_path) = false ->
  unwritable env (log_path script_path) = false ->
  main_in exn_str unicode_lower env script_path w
  = main exn_str unicode_lower script_path answer w.
Proof.
  intros Hin Hread Hlist Hwrite.
  rewrite main_in_run, main_run, Hin, Hread, Hlist, Hwrite.
  reflexivity.
Qed.

End MainIn.

(** The log's text, line by line. *)
Lemma log_text_lines (deleted : list pystr) :
  log_text deleted
  = py "Deleted " ++ str_of_nat (length deleted) ++ py " files:" ++ [LF]
    ++ concat (map (fun file => file ++ [LF]) deleted).
Proof.
  unfold log_text, pyln.
  enough (G : forall text,
             fold_left (fun text file => text ++ file ++ [LF]) deleted text
             = text ++ concat (map (fun file => file ++ [LF]) deleted)).
  { rewrite G. now rewrite <- !app_assoc. }
  induction deleted as [|file deleted IH]; intros text; simpl.
  - now rewrite app_nil_r.
  - rewrite IH. now rewrite <- !app_assoc.
Qed.

(* ================================================================== *)
(** ** The answers that confirm *)

Lemma ascii_lower_small (c x : char) :
  is_lower_ascii x = true ->
  ascii_lower c = x <-> c = x \/ c = (x - 32)%N.
Proof.
  unfold ascii_lower, is_lower_ascii, is_upper_ascii. code_points.
  intros Hx. destruct (between 65%N 90%N c) eqn:Hc; bool_lia.
Qed.

(** For an answer typed in ASCII, the test of [main] holds for [yes] in
    any mix of cases and for nothing else. *)
Lemma lower_is_yes (unicode_lower : pystr -> pystr) (answer : pystr) :
  forallb is_ascii answer = true ->
  str_eqb (lower unicode_lower answer) (py "yes") = true <->
  exists a b c, answer = [a; b; c]
                /\ (a = ch "y" \/ a = ch "Y")
                /\ (b = ch "e" \/ b = ch "E")
                /\ (c = ch "s" \/ c = ch "S").
Proof.
  intros Hascii. unfold lower. rewrite Hascii, str_eqb_eq.
  change (py "yes") with [ch "y"; ch "e"; ch "s"].
  destruct answer as [|a [|b [|c [|d answer]]]]; simpl;
    (split; [intros H; try discriminate
            | intros (a' & b' & c' & H & Ha & Hb & Hc); try discriminate]).
  - injection H as Ha Hb Hc.
    apply ascii_lower_small in Ha, Hb, Hc; try reflexivity.
    exists a, b, c. repeat split; assumption.
  - injection H as -> -> ->.
    f_equal; [|f_equal; [|f_equal]]; apply ascii_lower_small; try reflexivity; assumption.
Qed.

(* ================================================================== *)
(** ** Properties of the specification *)

(** C1.  A commented line is not skipped.  On the codes file [# ABCD1234]
    the pattern finds [ABCD1234] after the blank that follows the comment
    marker; the clean-up loop tests the captured text, which never starts
    with [#], so [read_hex_codes] returns the code. *)
Theorem commented_code_is_returned :
  findall hex_pattern (py "# ABCD1234") hex_flags = [py "ABCD1234"]
  /\ extract_hex_codes (py "# ABCD1234") = [py "ABCD1234"]
  /\ read_hex_codes (codes_path emoji_script) comment_world
     = (Ok [py "ABCD1234"], comment_world).
Proof. repeat split; vm_compute; reflexivity. Qed.

(** C2.  The worked example of the specification.  The reader returns
    three codes, the commented [1F602] among them, and the matcher
    therefore returns two files, [1F600.png] and [1F602.png]. *)
Theorem worked_example_matches_two_files :
  extract_hex_codes worked_content = [py "1F600"; py "1F601-1F3FB"; py "1F602"]
  /\ matching_in worked_listing emoji_dir (extract_hex_codes worked_content)
     = [py "/srv/png-emojis/1F600.png"; py "/srv/png-emojis/1F602.png"]
  /\ (hex_codes <- read_hex_codes (codes_path emoji_script) ;;
      find_matching_files (os_path_dirname emoji_script) hex_codes) worked_world
     = (Ok [py "/srv/png-emojis/1F600.png"; py "/srv/png-emojis/1F602.png"],
        worked_world).
Proof. repeat split; vm_compute; reflexivity. Qed.

(** C10.  Whatever file [read_hex_codes] is given, it returns the regular
    expression's matches in the content, all of them and in order: each
    match is a non-empty string of hyphen-joined groups of four or more
    hexadecimal digits, so stripping leaves it unchanged and neither the
    comment test nor the emptiness test of the clean-up loop discards it.
    (On a missing file the call raises [FileNotFoundError].) *)
Theorem read_hex_codes_all_matches (file_path : pystr) (w : world) :
  match lookup file_path (fs w) with
  | Some n =>
      let hex_codes := findall hex_pattern (content n) hex_flags in
      read_hex_codes file_path w = (Ok hex_codes, w)
      /\ Forall hex_code hex_codes
      /\ Forall (fun code =>
                   strip code = code
                   /\ startswith (strip code) (py "#") || str_eqb (strip code) [] = false)
           hex_codes
  | None => read_hex_codes file_path w = (Raise (OSErr (FileNotFoundError file_path)), w)
  end.
Proof.
  unfold read_hex_codes, bind, read_text.
  destruct (lookup file_path (fs w)) as [n|]; [|reflexivity].
  pose proof (findall_hex_codes (content n)) as Hall.
  repeat split.
  - unfold ret, extract_hex_codes. now rewrite (clean_codes_id Hall).
  - exact Hall.
  - eapply Forall_impl; [|exact Hall]. intros code Hcode. now apply hex_code_kept.
Qed.

(** C3.  [find_matching_files] returns, in listing order, the paths of
    exactly those directory entries that are equal as whole strings to
    [code + ".png"] for one of the candidate codes.  A file
    [ABCD1234.png] is matched by the code [ABCD1234]; the shorter and
    longer codes, a code in another case and a file with another
    extension do not match. *)
Theorem find_matching_files_exact (directory : pystr) (hex_codes : list pystr)
  (w : world) :
  let listing := os_listdir (fs w) directory in
  let wanted filename := existsb (fun code => str_eqb filename (code ++ py ".png")) hex_codes in
  find_matching_files directory hex_codes w
  = (Ok (map (os_path_join directory) (filter wanted listing)), w)
  /\ (forall filename, wanted filename = true <->
                       exists code, In code hex_codes /\ filename = code ++ py ".png")
  /\ matching_in [py "ABCD1234.png"] directory [py "ABCD1234"]
     = [os_path_join directory (py "ABCD1234.png")]
  /\ matching_in [py "ABCD1234.png"] directory
       [py "ABCD123"; py "ABCD12345"; py "abcd1234"; py "BCD1234"] = []
  /\ matching_in [py "ABCD1234.PNG"; py "ABCD1234.jpg"; py "ABCD1234"; py "xABCD1234.png"]
       directory [py "ABCD1234"] = [].
Proof.
  intros listing wanted. split; [|split; [|split; [|split]]].
  - unfold find_matching_files, bind, get_fs, ret. rewrite matching_in_filter.
    do 3 f_equal. apply filter_ext. intros filename.
    unfold str_in, wanted. apply existsb_over_map.
  - intros filename. unfold wanted. rewrite existsb_exists. split.
    + intros (code & Hin & E). apply str_eqb_eq in E. eauto.
    + intros (code & Hin & ->). exists code. split; [assumption | apply str_eqb_refl].
  - rewrite matching_in_filter. reflexivity.
  - rewrite matching_in_filter. reflexivity.
  - rewrite matching_in_filter. reflexivity.
Qed.

(** C5.  With dry-run off, [delete_files] tries every path of its list,
    one after the other, and always returns: each path gets one
    [os.remove] call, which succeeds exactly when the file is there and
    removable at that moment; a success is reported and adds the file's
    base name to the returned list, a failure is caught, reported and adds
    nothing, and in both cases the loop goes on to the next path. *)
Theorem delete_files_isolation (exn_str : OSError -> pystr) (files : list pystr)
  (w : world) :
  exists outcomes reports,
    delete_files exn_str files false w
    = (Ok (map os_path_basename (removed outcomes)),
       {| fs := unlink_all (removed outcomes) (fs w);
          stdout := stdout w ++ reports;
          journal := journal w ++ attempts outcomes |})
    /\ map fst outcomes = files
    /\ Forall2 (reported exn_str) outcomes reports
    /\ (forall pre o post, outcomes = pre ++ o :: post ->
          snd o = can_remove (unlink_all (removed pre) (fs w)) (fst o)).
Proof.
  destruct (delete_loop exn_str files [] w)
    as (outcomes & reports & Hrun & Hpaths & Hreports & Hturn).
  exists outcomes, reports. unfold delete_files. rewrite Hrun.
  repeat split; assumption.
Qed.

(** C9.  With dry-run on, [delete_files] changes no file and issues no
    system call: it prints one [Would delete:] line per path and returns
    the empty list. *)
Theorem dry_run_no_mutation (exn_str : OSError -> pystr) (files : list pystr)
  (w : world) :
  let (r, w') := delete_files exn_str files true w in
  r = Ok []
  /\ fs w' = fs w
  /\ journal w' = journal w
  /\ stdout w' = stdout w ++ map (fun file_path => py "Would delete: " ++ file_path ++ [LF]) files.
Proof.
  unfold delete_files. rewrite dry_loop. repeat split.
Qed.

Section Runs.

Variable exn_str : OSError -> pystr.
Variable unicode_lower : pystr -> pystr.

(** C4.  In a run that reaches the prompt (the codes file is there and
    some file matched), any answer whose lower-case form is not [yes]
    ends the run normally with the file system untouched and no system
    call issued: nothing is deleted, no log is written.  An answer whose
    lower-case form is [yes] goes on to call [os.remove] on every matched
    file and then to write the log. *)
Theorem confirmation_gate (script_path answer : pystr) (w : world) (n : node) :
  lookup (codes_path script_path) (fs w) = Some n ->
  matched script_path (content n) (fs w) <> [] ->
  let (r, w') := main exn_str unicode_lower script_path answer w in
  if str_eqb (lower unicode_lower answer) (py "yes")
  then exists outcomes,
      map fst outcomes = matched script_path (content n) (fs w)
      /\ journal w'
         = journal w ++ attempts outcomes
           ++ [WRITE (log_path script_path)
                 (log_text (map os_path_basename (removed outcomes)))]
      /\ fs w'
         = store (log_path script_path)
             (log_text (map os_path_basename (removed outcomes)))
             (unlink_all (removed outcomes) (fs w))
  else r = Ok tt /\ fs w' = fs w /\ journal w' = journal w.
Proof.
  intros Hfile Hsome. rewrite main_run, Hfile. cbv zeta.
  destruct (matched script_path (content n) (fs w)) as [|file rest] eqn:Hm;
    [contradiction|].
  destruct (str_eqb (lower unicode_lower answer) (py "yes")).
  - unfold delete_files.
    match goal with
    | |- context [for_each ?fl ?a _ ?w2] =>
        destruct (delete_loop exn_str fl a w2)
          as (outcomes & reports & -> & Hpaths & _ & _)
    end.
    exists outcomes. simpl. rewrite <- app_assoc. repeat split. exact Hpaths.
  - repeat split.
Qed.

(** C6.  The exit status of a run of the script, path by path.  If the
    codes file does not exist, the run prints the error and exits with
    status 1 before doing anything else.  If it exists, the run exits
    with status 0 when it reaches the end of [main]: nothing matched,
    the operator declined, or the deletion was confirmed and the log
    written.  It exits with status 1 when an exception that the script
    does not catch ends it: the codes file cannot be read, the directory
    cannot be listed, standard input is at its end when the prompt is
    shown, or the log cannot be opened for writing after the deletion.
    The runs that end before the deletion leave the file system as it
    was and issue no system call; the run that cannot write its log has
    made its deletions. *)
Theorem exit_status_of_main_in (env : environment) (script_path : pystr) (w : world) :
  let (r, w') := main_in exn_str unicode_lower env script_path w in
  match lookup (codes_path script_path) (fs w) with
  | None =>
      r = Raise (SystemExit 1)
      /\ exit_status r = 1
      /\ w' = say w [py "Error: Hex codes file not found at "
                     ++ codes_path script_path ++ [LF]]
  | Some n =>
      if unreadable env (codes_path script_path)
      then r = Raise (OpenError (codes_path script_path))
           /\ exit_status r = 1 /\ w' = w
      else if unlistable env (os_path_dirname script_path)
      then r = Raise (OpenError (os_path_dirname script_path))
           /\ exit_status r = 1 /\ fs w' = fs w /\ journal w' = journal w
      else
        match matched script_path (content n) (fs w), stdin env with
        | [], _ =>
            r = Ok tt /\ exit_status r = 0 /\ fs w' = fs w /\ journal w' = journal w
        | _ :: _, None =>
            r = Raise EOFError
            /\ exit_status r = 1 /\ fs w' = fs w /\ journal w' = journal w
        | _ :: _, Some answer =>
            if str_eqb (lower unicode_lower answer) (py "yes")
            then if unwritable env (log_path script_path)
                 then r = Raise (OpenError (log_path script_path))
                      /\ exit_status r = 1
                      /\ exists outcomes,
                           map fst outcomes = matched script_path (content n) (fs w)
                           /\ journal w' = journal w ++ attempts outcomes
                           /\ fs w' = unlink_all (removed outcomes) (fs w)
                 else r = Ok tt /\ exit_status r = 0
            else r = Ok tt /\ exit_status r = 0
                 /\ fs w' = fs w /\ journal w' = journal w
        end
  end.
Proof.
  rewrite main_in_run.
  destruct (lookup (codes_path script_path) (fs w)) as [n|]; [|repeat split].
  destruct (unreadable env (codes_path script_path)); [repeat split|].
  destruct (unlistable env (os_path_dirname script_path)); [repeat split|].
  cbv zeta.
  destruct (matched script_path (content n) (fs w)) as [|file rest] eqn:Hm;
    [destruct (stdin env); repeat split|].
  destruct (stdin env) as [answer|]; [|repeat split].
  destruct (str_eqb (lower unicode_lower answer) (py "yes")); [|repeat split].
  unfold delete_files.
  match goal with
  | |- context [for_each ?fl ?a _ ?w2] =>
      destruct (delete_loop exn_str fl a w2) as (outcomes & reports & -> & Hpaths & _)
  end.
  destruct (unwritable env (log_path script_path)); [|repeat split].
  split; [reflexivity|]. split; [reflexivity|].
  exists outcomes. repeat split. exact Hpaths.
Qed.

(** C7.  With no candidate code [find_matching_files] returns the empty
    list, normally; a codes file that yields no code therefore matches
    nothing; and a run in which nothing matched ends normally without a
    system call: no deletion is attempted, no log is written, the file
    system stays as it was. *)
Theorem no_matches_no_effect (script_path answer : pystr) (w : world) (n : node) :
  lookup (codes_path script_path) (fs w) = Some n ->
  matched script_path (content n) (fs w) = [] ->
  (forall directory w0, find_matching_files directory [] w0 = (Ok [], w0))
  /\ (forall content files,
        extract_hex_codes content = [] -> matched script_path content files = [])
  /\ let (r, w') := main exn_str unicode_lower script_path answer w in
     r = Ok tt /\ fs w' = fs w /\ journal w' = journal w.
Proof.
  intros Hfile Hnone. split; [|split].
  - intros directory w0. unfold find_matching_files, bind, get_fs, ret.
    now rewrite matching_in_no_codes.
  - intros content files Hcodes. unfold matched. rewrite Hcodes.
    apply matching_in_no_codes.
  - rewrite main_run, Hfile. cbv zeta. rewrite Hnone. repeat split.
Qed.

(** C8.  After the operator confirmed the deletion of a non-empty set of
    matched files, the log is written at [deleted_files_log.txt] next to
    the script, whatever was there before: its text is the line
    [Deleted <N> files:] followed by one line per deleted file with its
    base name, where the listed files are those whose [os.remove]
    succeeded and N is their number.  In every other run that finds the
    codes file no log is written. *)
Theorem log_after_confirmed_deletion (script_path answer : pystr) (w : world)
  (n : node) :
  lookup (codes_path script_path) (fs w) = Some n ->
  let matching_files := matched script_path (content n) (fs w) in
  let (r, w') := main exn_str unicode_lower script_path answer w in
  match matching_files, str_eqb (lower unicode_lower answer) (py "yes") with
  | _ :: _, true =>
      exists outcomes,
        let deleted := map os_path_basename (removed outcomes) in
        let text := py "Deleted " ++ str_of_nat (length deleted) ++ py " files:" ++ [LF]
                    ++ concat (map (fun file => file ++ [LF]) deleted) in
        map fst outcomes = matching_files
        /\ (forall pre o post, outcomes = pre ++ o :: post ->
              snd o = can_remove (unlink_all (removed pre) (fs w)) (fst o))
        /\ journal w'
           = journal w ++ attempts outcomes ++ [WRITE (log_path script_path) text]
        /\ exists node, lookup (log_path script_path) (fs w') = Some node
                        /\ content node = text
  | _, _ => fs w' = fs w /\ journal w' = journal w
  end.
Proof.
  intros Hfile matching_files. subst matching_files.
  rewrite main_run, Hfile. cbv zeta.
  destruct (matched script_path (content n) (fs w)) as [|file rest] eqn:Hm;
    [repeat split|].
  destruct (str_eqb (lower unicode_lower answer) (py "yes")); [|repeat split].
  unfold delete_files.
  match goal with
  | |- context [for_each ?fl ?a _ ?w2] =>
      destruct (delete_loop exn_str fl a w2)
        as (outcomes & reports & -> & Hpaths & _ & Hturn)
  end.
  exists outcomes. cbv zeta. rewrite <- log_text_lines. simpl.
  split; [exact Hpaths|]. split; [exact Hturn|]. split.
  - now rewrite <- app_assoc.
  - apply lookup_store_same.
Qed.

End Runs.

(* ================================================================== *)
(** ** The theorems at concrete runs *)

(** Confirming the worked example deletes the file of the commented code. *)
Example worked_example_run :
  let (r, w') := main posix_exn_str ascii_only_lower emoji_script (py "yes") worked_world in
  r = Ok tt
  /\ map fst (fs w')
     = [py "/srv/png-emojis/hex_codes_to_delete.txt"; py "/srv/png-emojis/other.png";
        py "/srv/png-emojis/deleted_files_log.txt"]
  /\ option_map content (lookup (log_path emoji_script) (fs w'))
     = Some (pyln "Deleted 2 files:" ++ pyln "1F600.png" ++ pyln "1F602.png").
Proof. vm_compute. repeat split. Qed.

(** The worked example run with standard input at its end: the codes
    file is there, the prompt is shown, [input] raises [EOFError], and
    the process ends with status 1 and nothing deleted. *)
Lemma end_of_input_exits_one :
  os_path_exists (fs worked_world) (codes_path emoji_script) = true
  /\ (let (r, w') := main_in posix_exn_str ascii_only_lower end_of_input
                        emoji_script worked_world in
      r = Raise EOFError
      /\ exit_status r = 1
      /\ fs w' = fs worked_world
      /\ journal w' = []).
Proof. vm_compute. repeat split. Qed.

(** The same with a codes file that is there and cannot be read: status
    1 before anything is printed. *)
Example codes_refused_run :
  os_path_exists (fs worked_world) (codes_path emoji_script) = true
  /\ (let (r, w') := main_in posix_exn_str ascii_only_lower codes_refused
                        emoji_script worked_world in
      exit_status r = 1 /\ w' = worked_world).
Proof. vm_compute. repeat split. Qed.

(** The same with a log that cannot be written: the two files are
    deleted, no log is there, and the status is 1. *)
Example log_refused_run :
  let (r, w') := main_in posix_exn_str ascii_only_lower log_refused
                   emoji_script worked_world in
  exit_status r = 1
  /\ map fst (fs w')
     = [py "/srv/png-emojis/hex_codes_to_delete.txt"; py "/srv/png-emojis/other.png"]
  /\ journal w'
     = [UNLINK (py "/srv/png-emojis/1F600.png") true;
        UNLINK (py "/srv/png-emojis/1F602.png") true].
Proof. vm_compute. repeat split. Qed.

(** Where nothing fails, the run in the environment is the run above. *)
Example says_yes_run :
  main_in posix_exn_str ascii_only_lower says_yes emoji_script worked_world
  = main posix_exn_str ascii_only_lower emoji_script (py "yes") worked_world.
Proof. now apply main_in_main. Qed.

(** A failed deletion next to a successful one: the locked file stays
    and is not in the log, the other one is removed and logged, and the
    old log is replaced. *)
Example locked_file_run :
  let (r, w') := main posix_exn_str ascii_only_lower emoji_script (py "Yes") locked_world in
  r = Ok tt
  /\ map fst (fs w')
     = [py "/srv/png-emojis/hex_codes_to_delete.txt"; py "/srv/png-emojis/1F600.png";
        py "/srv/png-emojis/deleted_files_log.txt"]
  /\ journal w'
     = [UNLINK (py "/srv/png-emojis/1F600.png") false;
        UNLINK (py "/srv/png-emojis/1F601.png") true;
        WRITE (py "/srv/png-emojis/deleted_files_log.txt")
          (pyln "Deleted 1 files:" ++ pyln "1F601.png")]
  /\ option_map content (lookup (log_path emoji_script) (fs w'))
     = Some (pyln "Deleted 1 files:" ++ pyln "1F601.png").
Proof. vm_compute. repeat split. Qed.

(** [delete_files] on a locked file, a file that is not there and a
    plain file: two errors are reported, the third file is removed and is
    the only one returned. *)
Example delete_files_mixed :
  delete_files posix_exn_str
    [py "/srv/png-emojis/1F600.png"; py "/srv/png-emojis/gone.png";
     py "/srv/png-emojis/1F601.png"] false locked_world
  = (Ok [py "1F601.png"],
     {| fs := [ plain_file "hex_codes_to_delete.txt" (pyln "1F600" ++ pyln "1F601");
                locked_file "1F600.png" [];
                plain_file "deleted_files_log.txt" (pyln "Deleted 7 files:") ];
        stdout :=
          [ pyln "Error deleting /srv/png-emojis/1F600.png: [Errno 13] Permission denied: '/srv/png-emojis/1F600.png'";
            pyln "Error deleting /srv/png-emojis/gone.png: [Errno 2] No such file or directory: '/srv/png-emojis/gone.png'";
            pyln "Deleted: /srv/png-emojis/1F601.png" ];
        journal :=
          [ UNLINK (py "/srv/png-emojis/1F600.png") false;
            UNLINK (py "/srv/png-emojis/gone.png") false;
            UNLINK (py "/srv/png-emojis/1F601.png") true ] |}).
Proof. vm_compute. reflexivity. Qed.

(** The confirmation gate on the worked example, answered with [no]. *)
Lemma confirmation_gate_witness :
  lookup (codes_path emoji_script) (fs worked_world)
  = Some {| content := worked_content; removable := true |}
  /\ matched emoji_script worked_content (fs worked_world) <> []
  /\ let (r, w') := main posix_exn_str ascii_only_lower emoji_script (py "no") worked_world in
     r = Ok tt /\ fs w' = fs worked_world /\ journal w' = journal worked_world.
Proof.
  assert (Hfile : lookup (codes_path emoji_script) (fs worked_world)
                  = Some {| content := worked_content; removable := true |})
    by (vm_compute; reflexivity).
  assert (Hsome : matched emoji_script worked_content (fs worked_world) <> [])
    by (vm_compute; discriminate).
  split; [exact Hfile|]. split; [exact Hsome|].
  exact (confirmation_gate posix_exn_str ascii_only_lower emoji_script (py "no")
           worked_world Hfile Hsome).
Defined.

(** A codes file without a code, next to a file that stays. *)
Lemma no_matches_no_effect_witness :
  lookup (codes_path emoji_script) (fs no_codes_world)
  = Some {| content := pyln "nothing to delete"; removable := true |}
  /\ matched emoji_script (pyln "nothing to delete") (fs no_codes_world) = []
  /\ let (r, w') := main posix_exn_str ascii_only_lower emoji_script [] no_codes_world in
     r = Ok tt /\ fs w' = fs no_codes_world /\ journal w' = journal no_codes_world.
Proof.
  assert (Hfile : lookup (codes_path emoji_script) (fs no_codes_world)
                  = Some {| content := pyln "nothing to delete"; removable := true |})
    by (vm_compute; reflexivity).
  assert (Hnone : matched emoji_script (pyln "nothing to delete") (fs no_codes_world) = [])
    by (vm_compute; reflexivity).
  split; [exact Hfile|]. split; [exact Hnone|].
  exact (proj2 (proj2 (no_matches_no_effect posix_exn_str ascii_only_lower emoji_script []
                         no_codes_world Hfile Hnone))).
Defined.

(** The log of a confirmed run in which one of two deletions fails. *)
Lemma log_after_confirmed_deletion_witness :
  lookup (codes_path emoji_script) (fs locked_world)
  = Some {| content := pyln "1F600" ++ pyln "1F601"; removable := true |}
  /\ let (r, w') := main posix_exn_str ascii_only_lower emoji_script (py "YES") locked_world in
     exists outcomes,
       let deleted := map os_path_basename (removed outcomes) in
       let text := py "Deleted " ++ str_of_nat (length deleted) ++ py " files:" ++ [LF]
                   ++ concat (map (fun file => file ++ [LF]) deleted) in
       map fst outcomes
       = [py "/srv/png-emojis/1F600.png"; py "/srv/png-emojis/1F601.png"]
       /\ (forall pre o post, outcomes = pre ++ o :: post ->
             snd o = can_remove (unlink_all (removed pre) (fs locked_world)) (fst o))
       /\ journal w'
          = journal locked_world ++ attempts outcomes
            ++ [WRITE (log_path emoji_script) text]
       /\ exists node, lookup (log_path emoji_script) (fs w') = Some node
                       /\ content node = text.
Proof.
  assert (Hfile : lookup (codes_path emoji_script) (fs locked_world)
                  = Some {| content := pyln "1F600" ++ pyln "1F601"; removable := true |})
    by (vm_compute; reflexivity).
  split; [exact Hfile|].
  exact (log_after_confirmed_deletion posix_exn_str ascii_only_lower emoji_script
           (py "YES") locked_world Hfile).
Defined.

(* ================================================================== *)
(** ** The pattern on sample texts *)

(** A code may start a line or follow any whitespace, and needs no
    boundary at its end. *)
Example findall_after_whitespace :
  findall hex_pattern (py "face" ++ [9%N] ++ py "dead" ++ [11%N] ++ py "beefy") hex_flags
  = [py "face"; py "dead"; py "beef"].
Proof. vm_compute. reflexivity. Qed.

Example findall_mid_word :
  findall hex_pattern (py "xABCD ABCD 1F600.png") hex_flags = [py "ABCD"; py "1F600"].
Proof. vm_compute. reflexivity. Qed.

(** A hyphen joins a further group only when four digits follow it. *)
Example findall_hyphen_groups :
  findall hex_pattern (py "ABCD-1234-56789-12 abcd-1234- ABCD-EFGH") hex_flags
  = [py "ABCD-1234-56789"; py "abcd-1234"; py "ABCD"].
Proof. vm_compute. reflexivity. Qed.

(** A carriage return is whitespace but does not start a line; a line
    feed does both. *)
Example findall_line_starts :
  findall hex_pattern (py "ABC" ++ [LF] ++ py "DEF0" ++ [13%N] ++ py "1234" ++ [LF]) hex_flags
  = [py "DEF0"; py "1234"].
Proof. vm_compute. reflexivity. Qed.

(** A comment marker directly before the digits keeps the pattern from
    matching; a blank after the marker lets it match. *)
Example findall_comment_marker :
  findall hex_pattern (pyln "#ABCD1234" ++ pyln "# ABCD1234") hex_flags = [py "ABCD1234"].
Proof. vm_compute. reflexivity. Qed.

Example lower_examples :
  map (fun answer => str_eqb (lower ascii_only_lower answer) (py "yes"))
    [py "yes"; py "YES"; py "yEs"; py "y"; py "yes "; py " yes"; py "no"; []]
  = [true; true; true; false; false; false; false; false].
Proof. vm_compute. reflexivity. Qed.

Example path_examples :
  os_path_dirname emoji_script = emoji_dir
  /\ os_path_basename emoji_script = py "delete_emoji_files.py"
  /\ os_path_join emoji_dir (py "1F600.png") = py "/srv/png-emojis/1F600.png"
  /\ os_path_dirname (py "/script.py") = py "/"
  /\ os_path_join (py "/") (py "1F600.png") = py "/1F600.png"
  /\ os_listdir (fs worked_world) emoji_dir
     = [py "hex_codes_to_delete.txt"; py "1F600.png"; py "1F602.png"; py "other.png"].
Proof. vm_compute. repeat split. Qed.

(* ================================================================== *)
(** ** The matcher finds the codes it should: greedy runs *)

Lemma last_cons_shift {A} (a : A) (l : list A) (d : A) : last (a :: l) d = last l a.
Proof.
  destruct l as [|b l]; [reflexivity|].
  change (last (b :: l) d = last (b :: l) a). apply last_cons_default.
Qed.

Lemma prev_after_cons (p : option char) (c : char) (w : pystr) :
  prev_after p (c :: w) = prev_after (Some c) w.
Proof. unfold prev_after. simpl map. apply last_cons_shift. Qed.

Lemma after_nil (st : mstate) : after st [] (rest st) = st.
Proof. destruct st. reflexivity. Qed.

Lemma after_advance (st : mstate) (c : char) (x w tl : pystr) :
  after (advance st c x) w tl = after st (c :: w) tl.
Proof. unfold after, advance. simpl. now rewrite prev_after_cons. Qed.

Lemma after_after (st : mstate) (w1 x w2 tl : pystr) :
  after (after st w1 x) w2 tl = after st (w1 ++ w2) tl.
Proof. unfold after. simpl. now rewrite prev_after_app. Qed.

Lemma in_hit fl items (st : mstate) (k : mstate -> option mstate) c tl :
  rest st = c :: tl -> charset fl items c = true ->
  m fl (IN items) st k = k (advance st c tl).
Proof. intros Hrest Hc. simpl. now rewrite Hrest, Hc. Qed.

Lemma in_miss fl items (st : mstate) (k : mstate -> option mstate) :
  match rest st with [] => True | c :: _ => charset fl items c = false end ->
  m fl (IN items) st k = None.
Proof. intros H. simpl. destruct (rest st) as [|c tl]; [reflexivity | now rewrite H]. Qed.

Lemma hex_digit_charset (c : char) :
  is_hex_digit c = true ->
  charset hex_flags [RANGE (ch "0") (ch "9"); RANGE (ch "A") (ch "F")] c = true.
Proof.
  cbv [charset existsb item_mem item_has hex_flags IGNORECASE is_hex_digit
       ascii_lower ascii_upper is_upper_ascii is_lower_ascii].
  code_points. rewrite !andb_true_l, orb_false_r.
  destruct (between 65%N 90%N c) eqn:Hu; destruct (between 97%N 122%N c) eqn:Hl;
    intros H; bool_lia.
Qed.

Lemma not_hex_digit_charset (c : char) :
  is_hex_digit c = false ->
  charset hex_flags [RANGE (ch "0") (ch "9"); RANGE (ch "A") (ch "F")] c = false.
Proof.
  intros H.
  destruct (charset hex_flags [RANGE (ch "0") (ch "9"); RANGE (ch "A") (ch "F")] c) eqn:E;
    [|reflexivity].
  apply charset_hex_digits in E. congruence.
Qed.

Lemma hyphen_charset (c : char) :
  charset hex_flags [LITERAL (ch "-")] c = (c =? ch "-")%N.
Proof.
  destruct (N.eqb_spec c (ch "-")) as [->|Hne]; [reflexivity|].
  destruct (charset hex_flags [LITERAL (ch "-")] c) eqn:E; [|reflexivity].
  apply charset_hyphen in E. contradiction.
Qed.

(** For the class [\s] the flag [IGNORECASE] changes nothing. *)
Lemma space_charset (c : char) : charset hex_flags [CATEGORY_SPACE] c = isspace c.
Proof.
  cbv [charset existsb item_mem item_has hex_flags IGNORECASE
       ascii_lower ascii_upper is_upper_ascii is_lower_ascii].
  code_points. rewrite !andb_true_l, orb_false_r.
  destruct (isspace c) eqn:Hs; [reflexivity|]. simpl.
  destruct (between 65%N 90%N c) eqn:Hu; destruct (between 97%N 122%N c) eqn:Hl;
    rewrite ?Hs; try reflexivity;
    cbv [isspace]; bool_lia.
Qed.

Lemma run_ends_miss (st : mstate) :
  run_ends (rest st) ->
  match rest st with
  | [] => True
  | c :: _ => charset hex_flags [RANGE (ch "0") (ch "9"); RANGE (ch "A") (ch "F")] c = false
  end.
Proof.
  unfold run_ends. destruct (rest st) as [|c tl]; [trivial|].
  apply not_hex_digit_charset.
Qed.

Lemma rounds_0 body (k : mstate -> option mstate) (min : nat) (st : mstate) :
  rounds body k 0 min st = if Nat.eqb min 0 then k st else None.
Proof. reflexivity. Qed.

Lemma rounds_S body (k : mstate -> option mstate) (fuel min : nat) (st : mstate) :
  rounds body k (S fuel) min st
  = match body st (fun st1 =>
            if Nat.ltb (length (rest st1)) (length (rest st))
            then rounds body k fuel (Nat.pred min) st1 else None) with
    | Some res => Some res
    | None => if Nat.eqb min 0 then k st else None
    end.
Proof. reflexivity. Qed.

(** A run of hexadecimal digits is taken whole when the rest of the
    pattern accepts the position after it. *)
Lemma hex_run_greedy (k : mstate -> option mstate) (res : mstate) (tl : pystr) :
  run_ends tl ->
  forall (run : pystr) (st : mstate) (n fuel : nat),
    Forall (fun c => is_hex_digit c = true) run ->
    n <= length run ->
    rest st = run ++ tl ->
    length (rest st) <= fuel ->
    k (after st run tl) = Some res ->
    rounds (m hex_flags hex_digits) k fuel n st = Some res.
Proof.
  intros Htl. induction run as [|c run IH]; intros st n fuel Hrun Hn Hrest Hfuel Hk.
  - simpl in Hn, Hrest. assert (n = 0) as -> by lia.
    rewrite <- Hrest, after_nil in Hk.
    destruct fuel as [|fuel]; [rewrite rounds_0; exact Hk|].
    rewrite rounds_S. unfold hex_digits.
    rewrite in_miss; [exact Hk|]. apply run_ends_miss. now rewrite Hrest.
  - inversion Hrun as [|? ? Hc Hrun']; subst.
    simpl in Hrest. destruct fuel as [|fuel]; [rewrite Hrest in Hfuel; simpl in Hfuel; lia|].
    rewrite rounds_S. unfold hex_digits at 1.
    rewrite (in_hit _ _ _ _ Hrest (hex_digit_charset _ Hc)).
    assert (Hlt : Nat.ltb (length (rest (advance st c (run ++ tl)))) (length (rest st)) = true).
    { apply Nat.ltb_lt. rewrite Hrest. simpl. lia. }
    rewrite Hlt. erewrite IH; [reflexivity | assumption | simpl in Hn; lia | reflexivity | | ].
    + rewrite Hrest in Hfuel. simpl in *. lia.
    + now rewrite after_advance.
Qed.

(** The pieces of [hex_pattern]. *)
Definition hyphen_group_re : re := SEQ (IN [LITERAL (ch "-")]) (MAX_REPEAT 4 hex_digits).
Definition code_re : re := SEQ (MAX_REPEAT 4 hex_digits) (MAX_REPEAT 0 hyphen_group_re).
Definition lead_re : re := BRANCH AT_BEGINNING (IN [CATEGORY_SPACE]).

Lemma hex_pattern_pieces : hex_pattern = SEQ lead_re (SUBPATTERN code_re).
Proof. reflexivity. Qed.

Lemma m_SEQ fl r1 r2 (st : mstate) (k : mstate -> option mstate) :
  m fl (SEQ r1 r2) st k = m fl r1 st (fun st1 => m fl r2 st1 k).
Proof. reflexivity. Qed.

Lemma m_BRANCH fl r1 r2 (st : mstate) (k : mstate -> option mstate) :
  m fl (BRANCH r1 r2) st k
  = match m fl r1 st k with Some res => Some res | None => m fl r2 st k end.
Proof. reflexivity. Qed.

Lemma m_MAX_REPEAT fl min r (st : mstate) (k : mstate -> option mstate) :
  m fl (MAX_REPEAT min r) st k = rounds (m fl r) k (length (rest st)) min st.
Proof. reflexivity. Qed.

Lemma m_SUBPATTERN fl r (st : mstate) (k : mstate -> option mstate) :
  m fl (SUBPATTERN r) st k = m fl r st (fun st1 => k (set_group st1 (consumed st st1))).
Proof. reflexivity. Qed.

Lemma m_AT_BEGINNING fl (st : mstate) (k : mstate -> option mstate) :
  m fl AT_BEGINNING st k = if at_beginning fl (prev st) then k st else None.
Proof. reflexivity. Qed.

Lemma code_ends_run_ends (tl : pystr) : code_ends tl -> run_ends tl.
Proof. destruct tl; simpl; [trivial | tauto]. Qed.

(** After the first run, each hyphen with four or more digits behind it
    is taken too. *)
Lemma hyphen_groups_greedy (k : mstate -> option mstate) (res : mstate) (tl : pystr) :
  code_ends tl ->
  forall (gs : list pystr) (st : mstate) (fuel : nat),
    Forall hex_group gs ->
    rest st = concat (map (fun g => py "-" ++ g) gs) ++ tl ->
    length (rest st) <= fuel ->
    k (after st (concat (map (fun g => py "-" ++ g) gs)) tl) = Some res ->
    rounds (m hex_flags hyphen_group_re) k fuel 0 st = Some res.
Proof.
  intros Htl. induction gs as [|g gs IH]; intros st fuel Hgs Hrest Hfuel Hk.
  - simpl in Hrest, Hk. rewrite <- Hrest, after_nil in Hk.
    destruct fuel as [|fuel]; [rewrite rounds_0; exact Hk|].
    rewrite rounds_S. unfold hyphen_group_re. rewrite m_SEQ, in_miss; [exact Hk|].
    rewrite Hrest. destruct tl as [|c tl]; [trivial|].
    rewrite hyphen_charset. apply N.eqb_neq. apply Htl.
  - inversion Hgs as [|? ? [Hlen Hg] Hgs']; subst.
    set (more := concat (map (fun g => py "-" ++ g) gs)) in *.
    assert (Hrest' : rest st = ch "-" :: g ++ more ++ tl).
    { rewrite Hrest. simpl. now rewrite <- app_assoc. }
    destruct fuel as [|fuel]; [rewrite Hrest' in Hfuel; simpl in Hfuel; lia|].
    rewrite rounds_S. unfold hyphen_group_re at 1. rewrite m_SEQ.
    rewrite (in_hit _ _ _ _ Hrest') by (rewrite hyphen_charset; apply N.eqb_refl).
    rewrite m_MAX_REPEAT.
    erewrite hex_run_greedy with (tl := more ++ tl) (run := g);
      [reflexivity | | exact Hg | exact Hlen | reflexivity | apply le_n | ].
    + subst more. destruct gs as [|h gs]; simpl; [now apply code_ends_run_ends | reflexivity].
    + assert (Hlt : Nat.ltb (length (rest (after (advance st (ch "-") (g ++ more ++ tl)) g
                                             (more ++ tl))))
                      (length (rest st)) = true).
      { apply Nat.ltb_lt. rewrite Hrest'. simpl. rewrite !length_app. lia. }
      rewrite Hlt. simpl Nat.pred. apply IH.
      * exact Hgs'.
      * reflexivity.
      * rewrite Hrest' in Hfuel. simpl in *. rewrite !length_app in *. lia.
      * rewrite after_advance, after_after.
        replace ((ch "-" :: g) ++ more) with (concat (map (fun g => py "-" ++ g) (g :: gs)))
          by reflexivity.
        exact Hk.
Qed.

(** A code that ends where the text ends, or before a code point that
    cannot continue it, is matched whole. *)
Lemma code_greedy (k : mstate -> option mstate) (res : mstate) (code tl : pystr)
  (st : mstate) :
  hex_code code -> code_ends tl ->
  rest st = code ++ tl ->
  k (after st code tl) = Some res ->
  m hex_flags code_re st k = Some res.
Proof.
  intros (groups & Hne & Hall & ->) Htl Hrest Hk.
  destruct groups as [|g gs]; [contradiction|].
  rewrite join_cons in *. inversion Hall as [|? ? [Hlen Hg] Hgs]; subst.
  set (more := concat (map (fun x => py "-" ++ x) gs)) in *.
  rewrite <- app_assoc in Hrest.
  unfold code_re. rewrite m_SEQ, m_MAX_REPEAT.
  apply hex_run_greedy with (tl := more ++ tl) (run := g);
    [ | exact Hg | exact Hlen | exact Hrest | apply le_n | ].
  - subst more. destruct gs as [|h gs]; simpl; [now apply code_ends_run_ends | reflexivity].
  - rewrite m_MAX_REPEAT. apply hyphen_groups_greedy with (tl := tl) (gs := gs);
      try assumption.
    + reflexivity.
    + apply le_n.
    + now rewrite after_after.
Qed.

(** Where the text does not go on with a hexadecimal digit no code starts. *)
Lemma code_fails (k : mstate -> option mstate) (st : mstate) :
  run_ends (rest st) -> m hex_flags code_re st k = None.
Proof.
  intros H. unfold code_re. rewrite m_SEQ, m_MAX_REPEAT.
  destruct (length (rest st)) as [|fuel]; [reflexivity|].
  rewrite rounds_S. unfold hex_digits. rewrite in_miss; [reflexivity|].
  now apply run_ends_miss.
Qed.

(* ================================================================== *)
(** ** The pattern at one position of the text *)

Lemma space_not_hex (c : char) : isspace c = true -> is_hex_digit c = false.
Proof.
  intros H. destruct (is_hex_digit c) eqn:E; [|reflexivity].
  apply hex_digit_not_space in E. congruence.
Qed.

Lemma space_not_hyphen (c : char) : isspace c = true -> c <> ch "-".
Proof. intros H ->. discriminate H. Qed.

Lemma space_not_line_start_free (c : char) :
  isspace c = false -> at_beginning hex_flags (Some c) = false.
Proof.
  intros H. simpl. destruct (char_eqb c LF) eqn:E; [|reflexivity].
  apply N.eqb_eq in E. subst c. discriminate H.
Qed.

Lemma gap_code_ends (gap tl : pystr) :
  all_space gap -> gap <> [] -> code_ends (gap ++ tl).
Proof.
  intros Hgap Hne. destruct Hgap as [|c gap Hc _]; [contradiction|]. simpl.
  split; [now apply space_not_hex | now apply space_not_hyphen].
Qed.

Lemma gap_run_ends (gap : pystr) : all_space gap -> run_ends (gap ++ []).
Proof.
  intros Hgap. destruct Hgap as [|c gap Hc _]; simpl; [trivial | now apply space_not_hex].
Qed.

(** At the start of a line a code is matched. *)
Lemma pattern_at_line_start (p : option char) (code tl : pystr) :
  at_beginning hex_flags p = true -> hex_code code -> code_ends tl ->
  m hex_flags hex_pattern (start p (code ++ tl)) Some
  = Some {| prev := prev_after p code; rest := tl; group1 := Some code |}.
Proof.
  intros Hat Hcode Htl.
  rewrite hex_pattern_pieces, m_SEQ. unfold lead_re. rewrite m_BRANCH, m_AT_BEGINNING.
  change (prev (start p (code ++ tl))) with p. rewrite Hat, m_SUBPATTERN.
  erewrite code_greedy with (code := code) (tl := tl); [reflexivity | assumption
                                                        | assumption | reflexivity | ].
  rewrite (consumed_prefix (start p (code ++ tl)) (after (start p (code ++ tl)) code tl) code)
    by reflexivity.
  reflexivity.
Qed.

(** Right after a whitespace code point a code is matched, whatever came
    before. *)
Lemma pattern_after_space (p : option char) (sp : char) (code tl : pystr) :
  isspace sp = true -> hex_code code -> code_ends tl ->
  m hex_flags hex_pattern (start p (sp :: code ++ tl)) Some
  = Some {| prev := prev_after (Some sp) code; rest := tl; group1 := Some code |}.
Proof.
  intros Hsp Hcode Htl.
  rewrite hex_pattern_pieces, m_SEQ. unfold lead_re. rewrite m_BRANCH, m_AT_BEGINNING.
  assert (Hfirst : (if at_beginning hex_flags (prev (start p (sp :: code ++ tl)))
                    then m hex_flags (SUBPATTERN code_re) (start p (sp :: code ++ tl)) Some
                    else None) = None).
  { destruct (at_beginning _ _); [|reflexivity].
    rewrite m_SUBPATTERN. apply code_fails. simpl. now apply space_not_hex. }
  rewrite Hfirst.
  rewrite in_hit with (c := sp) (tl := code ++ tl);
    [ | reflexivity | now rewrite space_charset ].
  rewrite m_SUBPATTERN.
  set (st1 := advance (start p (sp :: code ++ tl)) sp (code ++ tl)).
  erewrite code_greedy with (code := code) (tl := tl); [reflexivity | assumption
                                                        | assumption | reflexivity | ].
  rewrite (consumed_prefix st1 (after st1 code tl) code) by reflexivity.
  reflexivity.
Qed.

(** No match starts at the end of the text. *)
Lemma pattern_fails_at_end (p : option char) :
  m hex_flags hex_pattern (start p []) Some = None.
Proof.
  rewrite hex_pattern_pieces, m_SEQ. unfold lead_re. rewrite m_BRANCH, m_AT_BEGINNING.
  rewrite in_miss by exact I.
  destruct (at_beginning _ _); [|reflexivity].
  rewrite m_SUBPATTERN, code_fails; [reflexivity | exact I].
Qed.

(** No match starts at a code point that is not a hexadecimal digit,
    unless it is whitespace with a digit behind it. *)
Lemma pattern_fails_not_hex (p : option char) (c : char) (tl : pystr) :
  is_hex_digit c = false -> isspace c = false \/ run_ends tl ->
  m hex_flags hex_pattern (start p (c :: tl)) Some = None.
Proof.
  intros Hc Hor.
  rewrite hex_pattern_pieces, m_SEQ. unfold lead_re. rewrite m_BRANCH, m_AT_BEGINNING.
  assert (Hfirst : (if at_beginning hex_flags (prev (start p (c :: tl)))
                    then m hex_flags (SUBPATTERN code_re) (start p (c :: tl)) Some
                    else None) = None).
  { destruct (at_beginning _ _); [|reflexivity].
    rewrite m_SUBPATTERN. apply code_fails. exact Hc. }
  rewrite Hfirst. destruct (isspace c) eqn:Hs.
  - destruct Hor as [Hor|Hor]; [discriminate|].
    rewrite in_hit with (c := c) (tl := tl);
      [ | reflexivity | now rewrite space_charset ].
    rewrite m_SUBPATTERN. apply code_fails. exact Hor.
  - apply in_miss. change (charset hex_flags [CATEGORY_SPACE] c = false).
    now rewrite space_charset.
Qed.

(** No match starts inside a word. *)
Lemma pattern_fails_mid_word (p : option char) (c : char) (tl : pystr) :
  at_beginning hex_flags p = false -> isspace c = false ->
  m hex_flags hex_pattern (start p (c :: tl)) Some = None.
Proof.
  intros Hat Hs.
  rewrite hex_pattern_pieces, m_SEQ. unfold lead_re. rewrite m_BRANCH, m_AT_BEGINNING.
  change (prev (start p (c :: tl))) with p. rewrite Hat.
  apply in_miss. change (charset hex_flags [CATEGORY_SPACE] c = false).
  now rewrite space_charset.
Qed.

(* ================================================================== *)
(** ** The scan over a text of codes and gaps *)

Lemma scan_S fl r (fuel : nat) (p : option char) (s : pystr) :
  scan (S fuel) fl r p s
  = match m fl r (start p s) Some with
    | Some res =>
        if Nat.ltb (length (rest res)) (length s)
        then group_text res :: scan fuel fl r (prev res) (rest res)
        else group_text res
             :: match s with [] => [] | c :: tl => scan fuel fl r (Some c) tl end
    | None => match s with [] => [] | c :: tl => scan fuel fl r (Some c) tl end
    end.
Proof. reflexivity. Qed.

Lemma hex_code_not_nil (code : pystr) : hex_code code -> 0 < length code.
Proof. intros H. destruct (hex_code_head H) as (c & s' & -> & _). simpl. lia. Qed.

(** One successful step of the scan. *)
Lemma scan_hit (fuel : nat) (p q : option char) (s code tl : pystr) :
  m hex_flags hex_pattern (start p s) Some
  = Some {| prev := q; rest := tl; group1 := Some code |} ->
  length tl < length s ->
  scan (S fuel) hex_flags hex_pattern p s = code :: scan fuel hex_flags hex_pattern q tl.
Proof.
  intros Hm Hlen. rewrite scan_S, Hm. simpl rest. simpl prev.
  apply Nat.ltb_lt in Hlen. now rewrite Hlen.
Qed.

(** Whitespace-separated codes are found one by one.  [gap0] is the
    whitespace the scan still has before the first item. *)
Lemma scan_spaced (items : list (pystr * pystr)) :
  spaced_codes items ->
  forall (gap0 : pystr) (p : option char) (fuel : nat),
    all_space gap0 ->
    (gap0 = [] -> items = [] \/ at_beginning hex_flags p = true) ->
    length (gap0 ++ lay_out items) < fuel ->
    scan fuel hex_flags hex_pattern p (gap0 ++ lay_out items) = map fst items.
Proof.
  induction items as [|[code gap] items IH]; intros Hitems.
  - induction gap0 as [|sp gap0 IHgap]; intros p fuel Hgap Hstart Hfuel;
      (destruct fuel as [|fuel]; [lia|]); rewrite scan_S.
    + change ([] ++ lay_out []) with (@nil char). now rewrite pattern_fails_at_end.
    + inversion Hgap as [|? ? Hsp Hgap']; subst.
      change ((sp :: gap0) ++ lay_out []) with (sp :: gap0 ++ []).
      rewrite pattern_fails_not_hex;
        [ | now apply space_not_hex | right; now apply gap_run_ends ].
      apply IHgap; [assumption | now left | simpl in Hfuel; simpl; lia].
  - destruct Hitems as (Hcode & Hgap & Hlast & Hitems).
    assert (Hgap_nil : gap = [] -> items = []).
    { intros ->. destruct items; [reflexivity|]. exfalso. now apply Hlast. }
    assert (Hends : code_ends (gap ++ lay_out items)).
    { destruct gap as [|c gap'].
      - rewrite (Hgap_nil eq_refl). exact I.
      - apply gap_code_ends; [assumption | discriminate]. }
    assert (Hlay : lay_out ((code, gap) :: items) = code ++ gap ++ lay_out items).
    { unfold lay_out. simpl. now rewrite <- app_assoc. }
    pose proof (hex_code_not_nil Hcode) as Hpos.
    assert (Hnext : forall q fuel, length (gap ++ lay_out items) < fuel ->
               scan fuel hex_flags hex_pattern q (gap ++ lay_out items) = map fst items).
    { intros q fuel Hfuel. apply (IH Hitems); [assumption | | assumption].
      intros Hnil. left. now apply Hgap_nil. }
    induction gap0 as [|sp gap0 IHgap]; intros p fuel Hgap0 Hstart Hfuel;
      (destruct fuel as [|fuel]; [lia|]).
    + destruct (Hstart eq_refl) as [Hnil|Hat]; [discriminate|].
      simpl app. rewrite Hlay.
      rewrite scan_hit with (q := prev_after p code) (code := code)
                            (tl := gap ++ lay_out items).
      * change (map fst ((code, gap) :: items)) with (code :: map fst items).
        f_equal. apply Hnext. simpl in Hfuel. rewrite Hlay, length_app in Hfuel.
        unfold pystr, char in *. lia.
      * now apply pattern_at_line_start.
      * rewrite !length_app. unfold pystr, char in *. lia.
    + inversion Hgap0 as [|? ? Hsp Hgap0']; subst.
      destruct gap0 as [|sp2 gap0].
      * simpl app. rewrite Hlay.
        rewrite scan_hit with (q := prev_after (Some sp) code) (code := code)
                              (tl := gap ++ lay_out items).
        -- change (map fst ((code, gap) :: items)) with (code :: map fst items).
           f_equal. apply Hnext. simpl in Hfuel.
           rewrite Hlay, length_app in Hfuel. unfold pystr, char in *. lia.
        -- now apply pattern_after_space.
        -- simpl. rewrite !length_app. unfold pystr, char in *. lia.
      * rewrite scan_S.
        change ((sp :: sp2 :: gap0) ++ lay_out ((code, gap) :: items))
          with (sp :: (sp2 :: gap0) ++ lay_out ((code, gap) :: items)).
        rewrite pattern_fails_not_hex; [ | now apply space_not_hex | right ].
        -- apply IHgap; [assumption | discriminate | simpl in Hfuel; simpl; lia].
        -- inversion Hgap0' as [|? ? Hsp2 _]; subst. simpl. now apply space_not_hex.
Qed.

(** A word that holds no whitespace and is not at the start of a line is
    passed over. *)
Lemma scan_word (w : pystr) :
  Forall (fun c => isspace c = false) w ->
  forall (p : option char) (s : pystr) (fuel : nat),
    at_beginning hex_flags p = false ->
    length (w ++ s) < fuel ->
    scan fuel hex_flags hex_pattern p (w ++ s)
    = scan (S (length s)) hex_flags hex_pattern (prev_after p w) s.
Proof.
  induction 1 as [|c w Hc Hw IH]; intros p s fuel Hat Hfuel.
  - change ([] ++ s) with s in *. change (prev_after p []) with p.
    apply (scan_fuel hex_flags hex_pattern (n := length s)); lia.
  - destruct fuel as [|fuel]; [lia|]. simpl app. rewrite scan_S.
    rewrite pattern_fails_mid_word by assumption.
    rewrite prev_after_cons. apply IH.
    + now apply space_not_line_start_free.
    + simpl in Hfuel. lia.
Qed.

(* ================================================================== *)
(** ** Further properties of the Code Reader *)

Lemma spaced_codes_all (items : list (pystr * pystr)) :
  spaced_codes items -> Forall hex_code (map fst items).
Proof.
  induction items as [|[code gap] items IH]; simpl; [constructor|].
  intros (Hcode & _ & _ & Hitems). constructor; auto.
Qed.

Lemma extract_spaced (lead : pystr) (items : list (pystr * pystr)) :
  all_space lead -> spaced_codes items ->
  extract_hex_codes (lead ++ lay_out items) = map fst items.
Proof.
  intros Hlead Hitems. unfold extract_hex_codes, findall.
  rewrite scan_spaced; [ | assumption | assumption | now right | lia ].
  apply clean_codes_id. now apply spaced_codes_all.
Qed.

(** X1.  A codes file that holds nothing but whitespace-separated hex
    codes is read back exactly: [read_hex_codes] returns the codes in the
    order of the file, repeated codes included, whatever whitespace
    (blanks, tabs, empty lines) stands before, between and after them. *)
Theorem read_hex_codes_spaced (file_path lead : pystr) (items : list (pystr * pystr))
  (w : world) (n : node) :
  lookup file_path (fs w) = Some n ->
  content n = lead ++ lay_out items ->
  all_space lead ->
  spaced_codes items ->
  read_hex_codes file_path w = (Ok (map fst items), w).
Proof.
  intros Hfile Hcontent Hlead Hitems.
  unfold read_hex_codes, bind, read_text. rewrite Hfile, Hcontent.
  unfold ret. now rewrite extract_spaced.
Qed.


(** X3.  A text without whitespace that does not start with a
    hexadecimal digit yields no code, whatever digits it holds further
    on: codes are only looked for at the start of a line and after
    whitespace. *)
Theorem no_code_inside_a_word (c : char) (word : pystr) :
  is_hex_digit c = false ->
  no_space (c :: word) ->
  extract_hex_codes (c :: word) = [].
Proof.
  intros Hc Hword. inversion Hword as [|? ? Hcs Hrest]; subst.
  unfold extract_hex_codes, findall.
  rewrite scan_S, pattern_fails_not_hex; [ | assumption | now left ].
  rewrite <- (app_nil_r word).
  rewrite scan_word;
    [ | assumption | now apply space_not_line_start_free | rewrite app_nil_r; simpl; lia ].
  rewrite scan_S.
  now rewrite pattern_fails_at_end.
Qed.

(* ================================================================== *)
(** ** Paths and directory entries *)

Lemma strip_prefix_app (p s r : pystr) : strip_prefix p s = Some r -> s = p ++ r.
Proof.
  revert s; induction p as [|x p IH]; intros [|y s] H; simpl in H; try discriminate.
  - now injection H as <-.
  - now injection H as <-.
  - destruct (char_eqb x y) eqn:E; [|discriminate].
    apply N.eqb_eq in E. subst y. simpl. f_equal. now apply IH.
Qed.

Lemma char_eqb_sym (a b : char) : char_eqb a b = char_eqb b a.
Proof. apply N.eqb_sym. Qed.

(** Joining a directory and an entry name puts the name behind the
    directory's prefix. *)
Lemma join_entry (directory name : pystr) :
  name <> [] -> forallb not_sep name = true ->
  os_path_join directory name = os_path_join directory [] ++ name.
Proof.
  intros Hne Hname. destruct name as [|c name]; [contradiction|].
  simpl in Hname. apply andb_true_iff in Hname as [Hc _].
  unfold os_path_join.
  assert (Hstart : startswith (c :: name) [sep] = false).
  { change (startswith (c :: name) [sep]) with (char_eqb sep c && startswith name []).
    unfold not_sep in Hc. rewrite char_eqb_sym.
    destruct (char_eqb c sep); [discriminate | reflexivity]. }
  rewrite Hstart. simpl startswith.
  destruct (str_eqb directory [] || endswith directory [sep]).
  - now rewrite app_nil_r.
  - now rewrite <- !app_assoc.
Qed.

Lemma entry_name_join (directory path name : pystr) :
  entry_name directory path = Some name ->
  name <> [] /\ forallb not_sep name = true /\ os_path_join directory name = path.
Proof.
  unfold entry_name. intros H.
  destruct (strip_prefix (os_path_join directory []) path) as [[|c r]|] eqn:E;
    try discriminate.
  destruct (forallb not_sep (c :: r)) eqn:Hr; [|discriminate].
  injection H as <-. apply strip_prefix_app in E.
  split; [discriminate|]. split; [assumption|].
  rewrite join_entry by (assumption || discriminate). now symmetry.
Qed.

Lemma listdir_In (files : filesystem) (directory name : pystr) :
  In name (os_listdir files directory) <->
  exists e, In e files /\ entry_name directory (fst e) = Some name.
Proof.
  unfold os_listdir. rewrite in_flat_map. split; intros (e & He & H); exists e;
    (split; [assumption|]).
  - destruct (entry_name directory (fst e)) as [x|]; [|contradiction].
    destruct H as [->|[]]. reflexivity.
  - rewrite H. now left.
Qed.

Lemma lookup_In (path : pystr) (files : filesystem) :
  In path (map fst files) <-> os_path_exists files path = true.
Proof.
  unfold os_path_exists. induction files as [|[p n] files IH]; simpl.
  - split; [contradiction | discriminate].
  - destruct (str_eqb p path) eqn:E.
    + apply str_eqb_eq in E. split; [reflexivity | now left].
    + apply str_eqb_neq in E. rewrite <- IH. split; [intros [H|H]; tauto | now right].
Qed.

Lemma takewhile_stop (f : char -> bool) (l tl : pystr) :
  forallb f l = true ->
  match tl with [] => True | c :: _ => f c = false end ->
  takewhile f (l ++ tl) = l.
Proof.
  intros Hl Htl. induction l as [|x l IH]; simpl in *.
  - destruct tl as [|c tl]; [reflexivity | simpl; now rewrite Htl].
  - apply andb_true_iff in Hl as [Hx Hl]. rewrite Hx. f_equal. now apply IH.
Qed.

Lemma forallb_rev {A} (f : A -> bool) (l : list A) : forallb f (rev l) = forallb f l.
Proof.
  induction l as [|x l IH]; [reflexivity|].
  simpl. rewrite forallb_app, IH. simpl. rewrite andb_true_r. apply andb_comm.
Qed.

(** The base name of a joined path is the entry name. *)
Lemma basename_join (directory name : pystr) :
  name <> [] -> forallb not_sep name = true ->
  os_path_basename (os_path_join directory name) = name.
Proof.
  intros Hne Hname. rewrite join_entry by assumption.
  unfold os_path_basename. rewrite rev_app_distr.
  rewrite takewhile_stop; [apply rev_involutive | now rewrite forallb_rev | ].
  unfold os_path_join. simpl startswith.
  destruct (str_eqb directory []) eqn:Hd.
  - apply str_eqb_eq in Hd. subst directory. exact I.
  - simpl orb. destruct (endswith directory [sep]) eqn:He.
    + rewrite app_nil_r. unfold endswith in He. change (rev [sep]) with [sep] in He.
      destruct (rev directory) as [|c r]; [exact I|].
      change (startswith (c :: r) [sep]) with (char_eqb sep c && startswith r []) in He.
      apply andb_true_iff in He as [He _].
      unfold not_sep. rewrite char_eqb_sym, He. reflexivity.
    + rewrite app_nil_r, rev_app_distr. reflexivity.
Qed.

Lemma png_name_not_txt (code : pystr) (name : string) :
  rev (py name) = ch "t" :: tl (rev (py name)) ->
  code ++ py ".png" <> py name.
Proof.
  intros Hname H. apply (f_equal (@rev char)) in H.
  rewrite rev_app_distr, Hname in H. discriminate H.
Qed.

(* ================================================================== *)
(** ** Further properties of the Matcher *)

Definition wanted (hex_codes : list pystr) (filename : pystr) : bool :=
  existsb (fun code => str_eqb filename (code ++ py ".png")) hex_codes.

Lemma wanted_In (hex_codes : list pystr) (filename : pystr) :
  wanted hex_codes filename = true <->
  exists code, In code hex_codes /\ filename = code ++ py ".png".
Proof.
  unfold wanted. rewrite existsb_exists. split.
  - intros (code & Hin & E). apply str_eqb_eq in E. eauto.
  - intros (code & Hin & ->). exists code. split; [assumption | apply str_eqb_refl].
Qed.

Lemma matching_in_wanted (listing : list pystr) (directory : pystr)
  (hex_codes : list pystr) :
  matching_in listing directory hex_codes
  = map (os_path_join directory) (filter (wanted hex_codes) listing).
Proof.
  rewrite matching_in_filter. f_equal. apply filter_ext. intros filename.
  unfold str_in, wanted. apply existsb_over_map.
Qed.

Lemma matching_in_In (listing : list pystr) (directory : pystr)
  (hex_codes : list pystr) (path : pystr) :
  In path (matching_in listing directory hex_codes) <->
  exists filename code,
    In filename listing /\ In code hex_codes
    /\ filename = code ++ py ".png" /\ path = os_path_join directory filename.
Proof.
  rewrite matching_in_wanted, in_map_iff. split.
  - intros (filename & <- & Hin). apply filter_In in Hin as [Hin Hw].
    apply wanted_In in Hw as (code & Hcode & ->). eauto 6.
  - intros (filename & code & Hin & Hcode & -> & ->).
    exists (code ++ py ".png"). split; [reflexivity|].
    apply filter_In. split; [assumption|]. apply wanted_In. eauto.
Qed.

(** X4.  Every path [find_matching_files] returns names a file that
    exists, lies directly in the directory, and has a base name of the
    form [code + ".png"] for one of the candidate codes; the function
    itself changes nothing. *)
Theorem matching_files_exist (directory : pystr) (hex_codes : list pystr) (w : world) :
  exists matching_files,
    find_matching_files directory hex_codes w = (Ok matching_files, w)
    /\ Forall (fun path =>
                 os_path_exists (fs w) path = true
                 /\ In (os_path_basename path) (os_listdir (fs w) directory)
                 /\ path = os_path_join directory (os_path_basename path)
                 /\ exists code, In code hex_codes
                                 /\ os_path_basename path = code ++ py ".png")
         matching_files.
Proof.
  eexists. split; [reflexivity|].
  apply Forall_forall. intros path Hpath.
  apply matching_in_In in Hpath as (filename & code & Hin & Hcode & Hname & ->).
  pose proof Hin as Hentry. apply listdir_In in Hentry as ([p n] & He & Hentry).
  apply entry_name_join in Hentry as (Hne & Hsep & Hjoin). simpl in Hjoin.
  rewrite (basename_join directory Hne Hsep). repeat split.
  - apply lookup_In. rewrite Hjoin. now apply (in_map fst) in He.
  - assumption.
  - eauto.
Qed.

(** X5.  Only the set of candidate codes matters to the matcher: codes
    given twice or in another order select the same files, in the same
    (listing) order. *)
Theorem matching_depends_on_code_set (directory : pystr) (codes1 codes2 : list pystr)
  (w : world) :
  (forall code, In code codes1 <-> In code codes2) ->
  find_matching_files directory codes1 w = find_matching_files directory codes2 w.
Proof.
  intros Hsame. unfold find_matching_files, bind, get_fs, ret.
  rewrite !matching_in_wanted. do 3 f_equal. apply filter_ext. intros filename.
  destruct (wanted codes1 filename) eqn:E1; destruct (wanted codes2 filename) eqn:E2;
    try reflexivity.
  - apply wanted_In in E1 as (code & Hin & ->). apply Hsame in Hin.
    rewrite <- E2. symmetry. apply wanted_In. eauto.
  - apply wanted_In in E2 as (code & Hin & ->). apply Hsame in Hin.
    rewrite <- E1. apply wanted_In. eauto.
Qed.

(* ================================================================== *)
(** ** Further properties of the Deleter *)

Lemma lookup_unlink_cases (p q : pystr) (files : filesystem) :
  lookup p (unlink q files) = None \/ lookup p (unlink q files) = lookup p files.
Proof.
  destruct (str_eqb p q) eqn:E.
  - apply str_eqb_eq in E. subst q. left. apply lookup_unlink_same.
  - apply str_eqb_neq in E. right. now apply lookup_unlink_other.
Qed.

Lemma can_remove_before (paths : list pystr) (files : filesystem) (p : pystr) :
  can_remove (unlink_all paths files) p = true -> can_remove files p = true.
Proof.
  revert files; induction paths as [|q paths IH]; intros files H; [exact H|].
  simpl in H. apply IH in H. unfold can_remove in *.
  destruct (lookup_unlink_cases p q files) as [E|E]; rewrite E in H;
    [discriminate | exact H].
Qed.

Lemma in_removed (outcomes : list (pystr * bool)) (p : pystr) :
  In p (removed outcomes) <-> In (p, true) outcomes.
Proof.
  unfold removed. rewrite in_map_iff. split.
  - intros ([q b] & <- & H). apply filter_In in H as [H Hb]. simpl in *. now subst b.
  - intros H. exists (p, true). split; [reflexivity|]. apply filter_In. now split.
Qed.

(** X6.  [delete_files] touches nothing but the files it removes: the
    files behind the returned names were present and removable before and
    are gone after, and every other path of the file system, listed or
    not, holds what it held before. *)
Theorem delete_files_frame (exn_str : OSError -> pystr) (files : list pystr) (w : world) :
  exists gone w',
    delete_files exn_str files false w = (Ok (map os_path_basename gone), w')
    /\ incl gone files
    /\ (forall p, In p gone ->
          can_remove (fs w) p = true /\ lookup p (fs w') = None)
    /\ (forall p, ~ In p gone -> lookup p (fs w') = lookup p (fs w)).
Proof.
  destruct (delete_loop exn_str files [] w)
    as (outcomes & reports & Hrun & Hpaths & _ & Hturn).
  exists (removed outcomes). eexists. split; [exact Hrun|]. simpl fs. split; [|split].
  - intros p Hp. rewrite <- Hpaths. now apply removed_incl.
  - intros p Hp. split; [|now apply unlink_all_gone].
    apply in_removed in Hp. apply in_split in Hp as (pre & post & ->).
    specialize (Hturn pre (p, true) post eq_refl). simpl in Hturn.
    symmetry in Hturn. now apply can_remove_before in Hturn.
  - intros p Hp. now apply unlink_all_other.
Qed.

(** A list of paths none of which can be removed: every attempt fails
    and the file system stays as it is. *)
Lemma delete_none (exn_str : OSError -> pystr) (files : list pystr) :
  forall (acc : list pystr) (w : world),
    (forall p, In p files -> can_remove (fs w) p = false) ->
    exists reports,
      for_each files acc (delete_files_body exn_str false) w
      = (Ok acc, {| fs := fs w; stdout := stdout w ++ reports;
                    journal := journal w ++ map (fun p => UNLINK p false) files |}).
Proof.
  induction files as [|p files IH]; intros acc w Hnone.
  - exists []. simpl. unfold ret. destruct w. simpl. now rewrite !app_nil_r.
  - destruct (delete_round exn_str acc p w) as (line & _ & Hround).
    simpl in Hround. rewrite (Hnone p (or_introl eq_refl)) in Hround.
    simpl. unfold bind at 1. rewrite Hround.
    match goal with
    | |- context [for_each files acc _ ?w1] =>
        destruct (IH acc w1) as (reports & ->);
        [intros q Hq; apply Hnone; now right|]
    end.
    exists (line :: reports). simpl. now rewrite <- !app_assoc.
Qed.

(** X7.  Running [delete_files] a second time on the same list removes
    nothing more: every attempt of the second run fails, its returned
    list is empty and the file system is left as the first run left it. *)
Theorem delete_files_twice (exn_str : OSError -> pystr) (files : list pystr) (w : world) :
  let (_, w1) := delete_files exn_str files false w in
  let (r2, w2) := delete_files exn_str files false w1 in
  r2 = Ok []
  /\ fs w2 = fs w1
  /\ journal w2 = journal w1 ++ map (fun p => UNLINK p false) files.
Proof.
  destruct (delete_loop exn_str files [] w)
    as (outcomes & reports & Hrun & Hpaths & _ & Hturn).
  unfold delete_files. rewrite Hrun.
  match goal with
  | |- context [for_each files [] _ ?w1] =>
      destruct (delete_none exn_str files [] w1) as (reports2 & ->)
  end.
  - intros p Hp. simpl fs.
    destruct (in_dec (list_eq_dec N.eq_dec) p (removed outcomes)) as [Hgone|Hkept].
    + unfold can_remove. now rewrite unlink_all_gone.
    + unfold can_remove. rewrite unlink_all_other by assumption.
      rewrite <- Hpaths in Hp. apply in_map_iff in Hp as ([q b] & Hq & Ho).
      simpl in Hq. subst q. destruct b; [exfalso; apply Hkept; now apply in_removed|].
      apply in_split in Ho as (pre & post & ->).
      specialize (Hturn pre (p, false) post eq_refl). simpl in Hturn.
      rewrite can_remove_unlink_all in Hturn; [now symmetry|].
      intros Hin. apply Hkept. apply in_removed in Hin. apply in_removed.
      apply in_or_app. now left.
  - repeat split.
Qed.

(** X8.  On a list of distinct paths the attempts do not affect each
    other: the files removed are exactly the listed files that were
    present and removable at the start, and the names returned are their
    base names in list order. *)
Theorem delete_files_independent (exn_str : OSError -> pystr) (files : list pystr)
  (w : world) :
  NoDup files ->
  let (r, w') := delete_files exn_str files false w in
  r = Ok (map os_path_basename (filter (can_remove (fs w)) files))
  /\ fs w' = unlink_all (filter (can_remove (fs w)) files) (fs w)
  /\ journal w' = journal w ++ map (fun p => UNLINK p (can_remove (fs w) p)) files
  /\ forall p, lookup p (fs w')
               = if existsb (str_eqb p) files && can_remove (fs w) p
                 then None else lookup p (fs w).
Proof.
  intros Hnodup.
  destruct (delete_files_distinct exn_str w Hnodup) as (reports & -> & _).
  simpl fs. simpl journal. repeat split.
  intros p.
  destruct (existsb (str_eqb p) files && can_remove (fs w) p) eqn:E.
  - apply andb_true_iff in E as [Hin Hcan]. apply unlink_all_gone.
    apply existsb_exists in Hin as (q & Hq & Epq). apply str_eqb_eq in Epq. subst q.
    apply filter_In. now split.
  - apply unlink_all_other. intros Hin. apply filter_In in Hin as [Hin Hcan].
    rewrite Hcan, andb_true_r in E.
    assert (existsb (str_eqb p) files = true); [|congruence].
    apply existsb_exists. exists p. split; [assumption | apply str_eqb_refl].
Qed.

(* ================================================================== *)
(** ** Further properties of [main] *)

Lemma lookup_store_other (p q text : pystr) (files : filesystem) :
  p <> q -> lookup p (store q text files) = lookup p files.
Proof.
  intros Hpq. induction files as [|[k n] files IH]; simpl.
  - destruct (str_eqb q p) eqn:E; [|reflexivity].
    apply str_eqb_eq in E. congruence.
  - destruct (str_eqb k q) eqn:Ekq; simpl.
    + apply str_eqb_eq in Ekq. subst k.
      destruct (str_eqb q p) eqn:Eqp; [|reflexivity].
      apply str_eqb_eq in Eqp. congruence.
    + now rewrite IH.
Qed.

Lemma extract_hex_codes_all (content : pystr) : Forall hex_code (extract_hex_codes content).
Proof.
  unfold extract_hex_codes. rewrite clean_codes_id; apply findall_hex_codes.
Qed.

(** What the files [main] finds look like. *)
Lemma matched_In (script_path content : pystr) (files : filesystem) (path : pystr) :
  In path (matched script_path content files) ->
  exists code,
    hex_code code
    /\ In code (extract_hex_codes content)
    /\ In (code ++ py ".png") (os_listdir files (os_path_dirname script_path))
    /\ path = os_path_join (os_path_dirname script_path) (code ++ py ".png")
    /\ os_path_basename path = code ++ py ".png".
Proof.
  unfold matched. intros H.
  apply matching_in_In in H as (filename & code & Hin & Hcode & -> & ->).
  exists code. split; [|split; [assumption|split; [assumption|split; [reflexivity|]]]].
  - pose proof (extract_hex_codes_all content) as Hall.
    rewrite Forall_forall in Hall. now apply Hall.
  - apply listdir_In in Hin as (e & _ & He).
    apply entry_name_join in He as (Hne & Hsep & _). now apply basename_join.
Qed.

Lemma codes_path_basename (script_path : pystr) :
  os_path_basename (codes_path script_path) = py "hex_codes_to_delete.txt".
Proof. unfold codes_path. apply basename_join; [discriminate | reflexivity]. Qed.

Lemma log_path_basename (script_path : pystr) :
  os_path_basename (log_path script_path) = py "deleted_files_log.txt".
Proof. unfold log_path. apply basename_join; [discriminate | reflexivity]. Qed.

Section MoreRuns.

Variable exn_str : OSError -> pystr.
Variable unicode_lower : pystr -> pystr.

(** A run changes no path but the log and the files it matched. *)
Lemma main_keeps (script_path answer : pystr) (w : world) (path : pystr) :
  path <> log_path script_path ->
  (forall n, lookup (codes_path script_path) (fs w) = Some n ->
             ~ In path (matched script_path (content n) (fs w))) ->
  lookup path (fs (snd (main exn_str unicode_lower script_path answer w)))
  = lookup path (fs w).
Proof.
  intros Hlog Hpath. rewrite main_run.
  destruct (lookup (codes_path script_path) (fs w)) as [n|]; [|reflexivity].
  specialize (Hpath n eq_refl). cbv zeta.
  destruct (matched script_path (content n) (fs w)) as [|file rest] eqn:Hm;
    [reflexivity|].
  destruct (str_eqb (lower unicode_lower answer) (py "yes")); [|reflexivity].
  unfold delete_files.
  match goal with
  | |- context [for_each ?fl ?a _ ?w2] =>
      destruct (delete_loop exn_str fl a w2)
        as (outcomes & reports & -> & Hpaths & _ & _)
  end.
  simpl. rewrite lookup_store_other by assumption.
  apply unlink_all_other. intros Hin. apply removed_incl in Hin.
  rewrite Hpaths in Hin. contradiction.
Qed.

(** X9.  No run deletes or changes the codes file: after [main], whatever
    the operator answered and whatever matched, [hex_codes_to_delete.txt]
    holds what it held before. *)
Theorem codes_file_survives (script_path answer : pystr) (w : world) :
  let (_, w') := main exn_str unicode_lower script_path answer w in
  lookup (codes_path script_path) (fs w') = lookup (codes_path script_path) (fs w).
Proof.
  pose proof (main_keeps script_path answer w (path := codes_path script_path)) as H.
  destruct (main exn_str unicode_lower script_path answer w) as [r w']. apply H.
  - intros E. apply (f_equal os_path_basename) in E.
    rewrite codes_path_basename, log_path_basename in E. discriminate E.
  - intros n _ Hin. apply matched_In in Hin as (code & _ & _ & _ & _ & Hbase).
    rewrite codes_path_basename in Hbase. symmetry in Hbase.
    revert Hbase. apply png_name_not_txt. reflexivity.
Qed.

(** X10.  A run touches only the log and files named [code + ".png"] in
    the script's directory: any other path (a file elsewhere, a file with
    another extension, a [.png] whose stem is not a hex code) holds
    after the run what it held before. *)
Theorem main_frame (script_path answer : pystr) (w : world) (path : pystr) :
  path <> log_path script_path ->
  (forall code, hex_code code ->
                path <> os_path_join (os_path_dirname script_path) (code ++ py ".png")) ->
  let (_, w') := main exn_str unicode_lower script_path answer w in
  lookup path (fs w') = lookup path (fs w).
Proof.
  intros Hlog Hpath.
  pose proof (main_keeps script_path answer w Hlog) as H.
  destruct (main exn_str unicode_lower script_path answer w) as [r w']. apply H.
  intros n _ Hin. apply matched_In in Hin as (code & Hcode & _ & _ & E & _).
  now apply (Hpath code).
Qed.

(** X11.  The system calls of a run: [os.remove] is called only on
    entries of the script's directory named [code + ".png"] for a hex
    code read from the codes file, and the only file written is the log. *)
Theorem main_calls (script_path answer : pystr) (w : world) :
  let (_, w') := main exn_str unicode_lower script_path answer w in
  exists calls,
    journal w' = journal w ++ calls
    /\ Forall (fun call =>
                 match call with
                 | UNLINK path _ =>
                     exists n code,
                       lookup (codes_path script_path) (fs w) = Some n
                       /\ In code (extract_hex_codes (content n))
                       /\ In (code ++ py ".png")
                            (os_listdir (fs w) (os_path_dirname script_path))
                       /\ path = os_path_join (os_path_dirname script_path)
                                   (code ++ py ".png")
                 | WRITE path _ => path = log_path script_path
                 end) calls.
Proof.
  rewrite main_run.
  destruct (lookup (codes_path script_path) (fs w)) as [n|] eqn:Hfile;
    [|exists []; split; [now rewrite app_nil_r | constructor]].
  cbv zeta.
  destruct (matched script_path (content n) (fs w)) as [|file rest] eqn:Hm;
    [exists []; split; [simpl; now rewrite app_nil_r | constructor]|].
  destruct (str_eqb (lower unicode_lower answer) (py "yes"));
    [|exists []; split; [simpl; now rewrite app_nil_r | constructor]].
  unfold delete_files.
  match goal with
  | |- context [for_each ?fl ?a _ ?w2] =>
      destruct (delete_loop exn_str fl a w2)
        as (outcomes & reports & -> & Hpaths & _ & _)
  end.
  eexists. split; [simpl; rewrite <- app_assoc; reflexivity|].
  apply Forall_app. split; [|repeat constructor].
  apply Forall_forall. intros call Hcall. unfold attempts in Hcall.
  apply in_map_iff in Hcall as ([p b] & <- & Ho). simpl.
  apply (in_map fst) in Ho. rewrite Hpaths, <- Hm in Ho. simpl in Ho.
  apply matched_In in Ho as (code & _ & Hcode & Hentry & E & _).
  exists n, code. auto.
Qed.

End MoreRuns.

(** X12.  The answers that confirm.  For an answer typed in ASCII the
    deletion goes ahead exactly for [yes] in one of its eight spellings
    in upper and lower case; [y], an empty line, or [yes] with a blank
    before or after it do not confirm. *)
Theorem confirming_answers (unicode_lower : pystr -> pystr) (answer : pystr) :
  forallb is_ascii answer = true ->
  str_eqb (lower unicode_lower answer) (py "yes") = true <->
  In answer [py "yes"; py "yeS"; py "yEs"; py "yES";
             py "Yes"; py "YeS"; py "YEs"; py "YES"].
Proof.
  intros Hascii. rewrite (lower_is_yes unicode_lower answer Hascii). split.
  - intros (a & b & c & -> & [-> | ->] & [-> | ->] & [-> | ->]); simpl; tauto.
  - intros H. simpl in H.
    repeat (destruct H as [<- | H]; [do 3 eexists; split; [reflexivity|]; tauto|]).
    contradiction.
Qed.

(* ================================================================== *)
(** ** Codes with a suffix in the same word *)

Lemma prev_after_last (p : option char) (w : pystr) :
  w <> [] -> Forall (fun c => isspace c = false) w ->
  exists c, prev_after p w = Some c /\ isspace c = false.
Proof.
  intros Hne Hw. destruct (exists_last Hne) as (w' & c & ->).
  exists c. split.
  - unfold prev_after. rewrite map_app. simpl. apply last_last.
  - apply Forall_app in Hw as [_ Hc]. now inversion Hc.
Qed.

Lemma after_code_mid_word (p : option char) (code : pystr) :
  hex_code code -> at_beginning hex_flags (prev_after p code) = false.
Proof.
  intros Hcode.
  destruct (prev_after_last p (w := code)) as (c & -> & Hc).
  - intros ->. apply hex_code_not_nil in Hcode. simpl in Hcode. lia.
  - now apply hex_code_no_space.
  - now apply space_not_line_start_free.
Qed.

Lemma scan_suffixed (entries : list (pystr * pystr * pystr)) :
  suffixed_codes entries ->
  forall (gap0 : pystr) (p : option char) (fuel : nat),
    all_space gap0 ->
    (gap0 = [] -> entries = [] \/ at_beginning hex_flags p = true) ->
    length (gap0 ++ lay_out_names entries) < fuel ->
    scan fuel hex_flags hex_pattern p (gap0 ++ lay_out_names entries)
    = map (fun e => fst (fst e)) entries.
Proof.
  induction entries as [|[[code suffix] gap] entries IH]; intros Hentries.
  - induction gap0 as [|sp gap0 IHgap]; intros p fuel Hgap Hstart Hfuel;
      (destruct fuel as [|fuel]; [lia|]); rewrite scan_S.
    + change ([] ++ lay_out_names []) with (@nil char). now rewrite pattern_fails_at_end.
    + inversion Hgap as [|? ? Hsp Hgap']; subst.
      change ((sp :: gap0) ++ lay_out_names []) with (sp :: gap0 ++ []).
      rewrite pattern_fails_not_hex;
        [ | now apply space_not_hex | right; now apply gap_run_ends ].
      apply IHgap; [assumption | now left | simpl in Hfuel; simpl; lia].
  - destruct Hentries as (Hcode & Hsuffix & Hsuffix_ends & Hgap & Hlast & Hentries).
    set (more := lay_out_names entries) in *.
    assert (Hgap_nil : gap = [] -> entries = []).
    { intros ->. destruct entries; [reflexivity|]. exfalso. now apply Hlast. }
    assert (Hends : code_ends (suffix ++ gap ++ more)).
    { destruct suffix as [|c suffix']; [|exact Hsuffix_ends].
      destruct gap as [|c gap'].
      - subst more. rewrite (Hgap_nil eq_refl). exact I.
      - change (code_ends ((c :: gap') ++ more)).
        apply gap_code_ends; [exact Hgap | discriminate]. }
    assert (Hlay : lay_out_names ((code, suffix, gap) :: entries)
                   = code ++ suffix ++ gap ++ more).
    { unfold lay_out_names. simpl. now rewrite <- !app_assoc. }
    pose proof (hex_code_not_nil Hcode) as Hpos.
    assert (Hnext : forall q fuel,
               length (suffix ++ gap ++ more) < fuel ->
               scan fuel hex_flags hex_pattern (prev_after q code) (suffix ++ gap ++ more)
               = map (fun e => fst (fst e)) entries).
    { intros q fuel Hfuel.
      rewrite scan_word with (w := suffix) (s := gap ++ more);
        [ | exact Hsuffix | now apply after_code_mid_word | exact Hfuel ].
      apply (IH Hentries); [assumption | | lia].
      intros Hnil. left. now apply Hgap_nil. }
    induction gap0 as [|sp gap0 IHgap]; intros p fuel Hgap0 Hstart Hfuel;
      (destruct fuel as [|fuel]; [lia|]).
    + destruct (Hstart eq_refl) as [Hnil|Hat]; [discriminate|].
      simpl app. rewrite Hlay.
      rewrite scan_hit with (q := prev_after p code) (code := code)
                            (tl := suffix ++ gap ++ more).
      * change (map (fun e => fst (fst e)) ((code, suffix, gap) :: entries))
          with (code :: map (fun e => fst (fst e)) entries).
        f_equal. apply Hnext. simpl in Hfuel. rewrite Hlay, length_app in Hfuel.
        unfold pystr, char in *. lia.
      * now apply pattern_at_line_start.
      * rewrite !length_app. unfold pystr, char in *. lia.
    + inversion Hgap0 as [|? ? Hsp Hgap0']; subst.
      destruct gap0 as [|sp2 gap0].
      * simpl app. rewrite Hlay.
        rewrite scan_hit with (q := prev_after (Some sp) code) (code := code)
                              (tl := suffix ++ gap ++ more).
        -- change (map (fun e => fst (fst e)) ((code, suffix, gap) :: entries))
             with (code :: map (fun e => fst (fst e)) entries).
           f_equal. apply Hnext. simpl in Hfuel.
           rewrite Hlay, length_app in Hfuel. unfold pystr, char in *. lia.
        -- now apply pattern_after_space.
        -- simpl. rewrite !length_app. unfold pystr, char in *. lia.
      * rewrite scan_S.
        change ((sp :: sp2 :: gap0) ++ lay_out_names ((code, suffix, gap) :: entries))
          with (sp :: (sp2 :: gap0) ++ lay_out_names ((code, suffix, gap) :: entries)).
        rewrite pattern_fails_not_hex; [ | now apply space_not_hex | right ].
        -- apply IHgap; [assumption | discriminate | simpl in Hfuel; simpl; lia].
        -- inversion Hgap0' as [|? ? Hsp2 _]; subst. simpl. now apply space_not_hex.
Qed.

Lemma suffixed_codes_all (entries : list (pystr * pystr * pystr)) :
  suffixed_codes entries -> Forall hex_code (map (fun e => fst (fst e)) entries).
Proof.
  induction entries as [|[[code suffix] gap] entries IH]; simpl; [constructor|].
  intros (Hcode & _ & _ & _ & _ & Hentries). constructor; auto.
Qed.

(** X13.  A codes file may list file names instead of bare codes: of a
    word that starts with a hex code and goes on with something that
    cannot continue the code, such as [.png], the reader returns the
    code and drops the rest of the word. *)
Theorem read_hex_codes_file_names (file_path lead : pystr)
  (entries : list (pystr * pystr * pystr)) (w : world) (n : node) :
  lookup file_path (fs w) = Some n ->
  content n = lead ++ lay_out_names entries ->
  all_space lead ->
  suffixed_codes entries ->
  read_hex_codes file_path w = (Ok (map (fun e => fst (fst e)) entries), w).
Proof.
  intros Hfile Hcontent Hlead Hentries.
  unfold read_hex_codes, bind, read_text. rewrite Hfile, Hcontent.
  unfold ret, extract_hex_codes, findall.
  rewrite scan_suffixed; [ | assumption | assumption | now right | lia ].
  rewrite clean_codes_id; [reflexivity | now apply suffixed_codes_all].
Qed.

(* ================================================================== *)
(** ** A confirmed run on a file system with distinct paths *)

Lemma NoDup_map_on {A B} (f : A -> B) (l : list A) :
  (forall x y, In x l -> In y l -> f x = f y -> x = y) ->
  NoDup l -> NoDup (map f l).
Proof.
  intros Hinj Hl. induction Hl as [|x l Hx Hl IH]; simpl; constructor.
  - intros Hin. apply in_map_iff in Hin as (y & E & Hy).
    apply Hx. rewrite (Hinj x y); [assumption | now left | now right | now symmetry].
  - apply IH. intros a b Ha Hb. apply Hinj; now right.
Qed.

Lemma listdir_NoDup (files : filesystem) (directory : pystr) :
  NoDup (map fst files) -> NoDup (os_listdir files directory).
Proof.
  induction files as [|[p n] files IH]; intros H; [constructor|].
  inversion H as [|? ? Hp Hfiles]; subst.
  change (os_listdir ((p, n) :: files) directory)
    with (match entry_name directory p with Some name => [name] | None => [] end
          ++ os_listdir files directory).
  destruct (entry_name directory p) as [name|] eqn:E; [|now apply IH].
  simpl. constructor; [|now apply IH].
  intros Hin. apply listdir_In in Hin as ([q k] & Hq & Eq). simpl in Eq.
  apply entry_name_join in E as (_ & _ & <-).
  apply entry_name_join in Eq as (_ & _ & Eq). subst q.
  apply Hp. now apply (in_map fst) in Hq.
Qed.

Lemma matched_NoDup (script_path content : pystr) (files : filesystem) :
  NoDup (map fst files) -> NoDup (matched script_path content files).
Proof.
  intros H. unfold matched. rewrite matching_in_wanted.
  apply NoDup_map_on.
  - intros x y Hx Hy E.
    apply filter_In in Hx as [Hx _]. apply filter_In in Hy as [Hy _].
    apply listdir_In in Hx as (ex & _ & Ex). apply listdir_In in Hy as (ey & _ & Ey).
    apply entry_name_join in Ex as (Hx1 & Hx2 & _).
    apply entry_name_join in Ey as (Hy1 & Hy2 & _).
    rewrite <- (basename_join (os_path_dirname script_path) Hx1 Hx2), E.
    now apply basename_join.
  - apply NoDup_filter. now apply listdir_NoDup.
Qed.

(** X14.  The outcome of a confirmed run, on a file system whose paths
    are distinct.  Of the matched files exactly those that are removable
    at the start are deleted; the log holds their count and their names,
    one per line, and replaces any older log; every other path keeps what
    it held; [os.remove] was called once on each matched file. *)
Theorem confirmed_run_outcome (exn_str : OSError -> pystr)
  (unicode_lower : pystr -> pystr) (script_path answer : pystr) (w : world) (n : node) :
  NoDup (map fst (fs w)) ->
  lookup (codes_path script_path) (fs w) = Some n ->
  matched script_path (content n) (fs w) <> [] ->
  str_eqb (lower unicode_lower answer) (py "yes") = true ->
  let matching_files := matched script_path (content n) (fs w) in
  let deleted := filter (can_remove (fs w)) matching_files in
  let text := py "Deleted " ++ str_of_nat (length deleted) ++ py " files:" ++ [LF]
              ++ concat (map (fun path => os_path_basename path ++ [LF]) deleted) in
  let (r, w') := main exn_str unicode_lower script_path answer w in
  r = Ok tt
  /\ journal w'
     = journal w ++ map (fun p => UNLINK p (can_remove (fs w) p)) matching_files
       ++ [WRITE (log_path script_path) text]
  /\ (exists node, lookup (log_path script_path) (fs w') = Some node
                   /\ content node = text)
  /\ forall path, path <> log_path script_path ->
       lookup path (fs w')
       = if existsb (str_eqb path) deleted then None else lookup path (fs w).
Proof.
  intros Hnodup Hfile Hsome Hyes. cbv zeta.
  pose proof (matched_NoDup script_path (content n) (fs w) Hnodup) as Hdistinct.
  rewrite main_run, Hfile. cbv zeta.
  remember (matched script_path (content n) (fs w)) as found eqn:Hfound.
  destruct found as [|file rest]; [contradiction|]. rewrite Hyes.
  remember (file :: rest) as matching_files eqn:Hm.
  match goal with
  | |- context [delete_files exn_str _ false ?w2] =>
      destruct (delete_files_distinct exn_str w2 Hdistinct) as (reports & -> & _)
  end.
  simpl fs. simpl journal.
  set (deleted := filter (can_remove (fs w)) matching_files).
  rewrite log_text_lines, length_map, map_map.
  split; [reflexivity|]. split; [|split].
  - now rewrite <- app_assoc.
  - apply lookup_store_same.
  - intros path Hpath. rewrite lookup_store_other by assumption.
    destruct (existsb (str_eqb path) deleted) eqn:E.
    + apply unlink_all_gone. apply existsb_exists in E as (q & Hq & Epq).
      apply str_eqb_eq in Epq. now subst q.
    + apply unlink_all_other. intros Hin.
      assert (existsb (str_eqb path) deleted = true); [|congruence].
      apply existsb_exists. exists path. split; [assumption | apply str_eqb_refl].
Qed.

(* ================================================================== *)
(** ** The further properties at concrete inputs *)

(** Concrete codes, gaps and words. *)
Ltac hex_code_of groups :=
  exists groups; split; [discriminate | split; [repeat constructor | reflexivity]].

Ltac distinct_paths :=
  repeat (constructor; [simpl; intuition discriminate|]); constructor.

Lemma spaced_items_ok : spaced_codes spaced_items.
Proof.
  unfold spaced_items. simpl. repeat split;
    try (intros _; discriminate); try (intros H; now contradiction H);
    try (repeat constructor; fail).
  - hex_code_of [py "1F600"].
  - hex_code_of [py "1F601"; py "1F3FB"].
  - hex_code_of [py "1F600"].
  - hex_code_of [py "abcd"].
Qed.

Lemma listed_names_ok : suffixed_codes listed_names.
Proof.
  unfold listed_names. simpl. repeat split;
    try (intros _; discriminate); try (intros H; now contradiction H);
    try (repeat constructor; fail); try discriminate.
  - hex_code_of [py "1F600"].
  - hex_code_of [py "1F468"; py "200D"; py "1F469"].
  - hex_code_of [py "1f4a9"].
Qed.

(** X1 on a file with empty lines, indentation and a repeated code. *)
Lemma read_hex_codes_spaced_witness :
  lookup (codes_path emoji_script) (fs spaced_world)
  = Some {| content := [LF; ch " "] ++ lay_out spaced_items; removable := true |}
  /\ all_space [LF; ch " "]
  /\ spaced_codes spaced_items
  /\ read_hex_codes (codes_path emoji_script) spaced_world
     = (Ok [py "1F600"; py "1F601-1F3FB"; py "1F600"; py "abcd"], spaced_world).
Proof.
  assert (Hfile : lookup (codes_path emoji_script) (fs spaced_world)
                  = Some {| content := [LF; ch " "] ++ lay_out spaced_items;
                            removable := true |})
    by (vm_compute; reflexivity).
  assert (Hlead : all_space [LF; ch " "]) by (repeat constructor).
  split; [exact Hfile|]. split; [exact Hlead|]. split; [exact spaced_items_ok|].
  exact (@read_hex_codes_spaced (codes_path emoji_script) [LF; ch " "] spaced_items
           spaced_world _ Hfile eq_refl Hlead spaced_items_ok).
Defined.


(** X3 on a comment marker written right before the code, and on the
    notation [U+1F600]. *)
Lemma no_code_inside_a_word_witness :
  is_hex_digit (ch "U") = false
  /\ no_space (py "U+1F600")
  /\ extract_hex_codes (py "U+1F600") = []
  /\ extract_hex_codes (py "#ABCD1234") = [].
Proof.
  assert (Hword : no_space (py "U+1F600")) by (repeat constructor).
  assert (Hword2 : no_space (py "#ABCD1234")) by (repeat constructor).
  split; [reflexivity|]. split; [exact Hword|]. split.
  - exact (@no_code_inside_a_word (ch "U") (py "+1F600") eq_refl Hword).
  - exact (@no_code_inside_a_word (ch "#") (py "ABCD1234") eq_refl Hword2).
Defined.

(** X5 on a list with a repeated code. *)
Lemma matching_depends_on_code_set_witness :
  (forall code, In code [py "1F602"; py "1F600"; py "1F602"]
                <-> In code [py "1F600"; py "1F602"])
  /\ find_matching_files emoji_dir [py "1F602"; py "1F600"; py "1F602"] worked_world
     = find_matching_files emoji_dir [py "1F600"; py "1F602"] worked_world.
Proof.
  assert (Hsame : forall code, In code [py "1F602"; py "1F600"; py "1F602"]
                               <-> In code [py "1F600"; py "1F602"])
    by (intros code; simpl; tauto).
  split; [exact Hsame|].
  exact (@matching_depends_on_code_set emoji_dir _ _ worked_world Hsame).
Defined.

(** X8 on a locked file, a missing file and a plain file. *)
Lemma delete_files_independent_witness :
  NoDup [py "/srv/png-emojis/1F600.png"; py "/srv/png-emojis/gone.png";
         py "/srv/png-emojis/1F601.png"]
  /\ let (r, w') :=
       delete_files posix_exn_str
         [py "/srv/png-emojis/1F600.png"; py "/srv/png-emojis/gone.png";
          py "/srv/png-emojis/1F601.png"] false locked_world in
     r = Ok [py "1F601.png"]
     /\ fs w' = unlink_all [py "/srv/png-emojis/1F601.png"] (fs locked_world)
     /\ journal w'
        = [UNLINK (py "/srv/png-emojis/1F600.png") false;
           UNLINK (py "/srv/png-emojis/gone.png") false;
           UNLINK (py "/srv/png-emojis/1F601.png") true]
     /\ forall p, lookup p (fs w')
                  = if existsb (str_eqb p)
                         [py "/srv/png-emojis/1F600.png"; py "/srv/png-emojis/gone.png";
                          py "/srv/png-emojis/1F601.png"]
                       && can_remove (fs locked_world) p
                    then None else lookup p (fs locked_world).
Proof.
  assert (Hnodup : NoDup [py "/srv/png-emojis/1F600.png"; py "/srv/png-emojis/gone.png";
                          py "/srv/png-emojis/1F601.png"]) by distinct_paths.
  split; [exact Hnodup|].
  exact (@delete_files_independent posix_exn_str _ locked_world Hnodup).
Defined.

(** X10 on the file [other.png] of the worked example, in a confirmed run. *)
Lemma main_frame_witness :
  py "/srv/png-emojis/other.png" <> log_path emoji_script
  /\ (forall code, hex_code code ->
        py "/srv/png-emojis/other.png"
        <> os_path_join (os_path_dirname emoji_script) (code ++ py ".png"))
  /\ let (_, w') := main posix_exn_str ascii_only_lower emoji_script (py "yes") worked_world in
     lookup (py "/srv/png-emojis/other.png") (fs w')
     = lookup (py "/srv/png-emojis/other.png") (fs worked_world).
Proof.
  assert (Hlog : py "/srv/png-emojis/other.png" <> log_path emoji_script)
    by (vm_compute; discriminate).
  assert (Hcode : forall code, hex_code code ->
             py "/srv/png-emojis/other.png"
             <> os_path_join (os_path_dirname emoji_script) (code ++ py ".png")).
  { intros code Hcode E.
    destruct (hex_code_head Hcode) as (c & s' & -> & Hc).
    unfold os_path_join in E.
    change (startswith ((c :: s') ++ py ".png") [sep])
      with (char_eqb sep c && startswith (s' ++ py ".png") []) in E.
    destruct (char_eqb sep c) eqn:Esep.
    - apply N.eqb_eq in Esep. subst c. discriminate Hc.
    - vm_compute in E. inversion E; subst. discriminate Hc. }
  split; [exact Hlog|]. split; [exact Hcode|].
  exact (@main_frame posix_exn_str ascii_only_lower emoji_script (py "yes") worked_world
           (py "/srv/png-emojis/other.png") Hlog Hcode).
Defined.

(** X12 on the answer [Yes]. *)
Lemma confirming_answers_witness :
  forallb is_ascii (py "Yes") = true
  /\ (str_eqb (lower ascii_only_lower (py "Yes")) (py "yes") = true <->
      In (py "Yes") [py "yes"; py "yeS"; py "yEs"; py "yES";
                     py "Yes"; py "YeS"; py "YEs"; py "YES"]).
Proof.
  split; [reflexivity|].
  exact (@confirming_answers ascii_only_lower (py "Yes") eq_refl).
Defined.

(** X13 on a codes file that lists file names. *)
Lemma read_hex_codes_file_names_witness :
  lookup (codes_path emoji_script) (fs names_world)
  = Some {| content := [] ++ lay_out_names listed_names; removable := true |}
  /\ all_space []
  /\ suffixed_codes listed_names
  /\ read_hex_codes (codes_path emoji_script) names_world
     = (Ok [py "1F600"; py "1F468-200D-1F469"; py "1f4a9"], names_world).
Proof.
  assert (Hfile : lookup (codes_path emoji_script) (fs names_world)
                  = Some {| content := [] ++ lay_out_names listed_names;
                            removable := true |})
    by (vm_compute; reflexivity).
  assert (Hlead : all_space []) by constructor.
  split; [exact Hfile|]. split; [exact Hlead|]. split; [exact listed_names_ok|].
  exact (@read_hex_codes_file_names (codes_path emoji_script) [] listed_names
           names_world _ Hfile eq_refl Hlead listed_names_ok).
Defined.

(** X14 on the run with a locked file. *)
Lemma confirmed_run_outcome_witness :
  NoDup (map fst (fs locked_world))
  /\ lookup (codes_path emoji_script) (fs locked_world)
     = Some {| content := pyln "1F600" ++ pyln "1F601"; removable := true |}
  /\ matched emoji_script (pyln "1F600" ++ pyln "1F601") (fs locked_world) <> []
  /\ str_eqb (lower ascii_only_lower (py "yes")) (py "yes") = true
  /\ let (r, w') := main posix_exn_str ascii_only_lower emoji_script (py "yes") locked_world in
     r = Ok tt
     /\ journal w'
        = [UNLINK (py "/srv/png-emojis/1F600.png") false;
           UNLINK (py "/srv/png-emojis/1F601.png") true;
           WRITE (py "/srv/png-emojis/deleted_files_log.txt")
             (pyln "Deleted 1 files:" ++ pyln "1F601.png")]
     /\ (exists node, lookup (log_path emoji_script) (fs w') = Some node
                      /\ content node = pyln "Deleted 1 files:" ++ pyln "1F601.png")
     /\ forall path, path <> log_path emoji_script ->
          lookup path (fs w')
          = if existsb (str_eqb path) [py "/srv/png-emojis/1F601.png"]
            then None else lookup path (fs locked_world).
Proof.
  assert (Hnodup : NoDup (map fst (fs locked_world))) by (vm_compute; distinct_paths).
  assert (Hfile : lookup (codes_path emoji_script) (fs locked_world)
                  = Some {| content := pyln "1F600" ++ pyln "1F601"; removable := true |})
    by (vm_compute; reflexivity).
  assert (Hsome : matched emoji_script (pyln "1F600" ++ pyln "1F601") (fs locked_world) <> [])
    by (vm_compute; discriminate).
  split; [exact Hnodup|]. split; [exact Hfile|]. split; [exact Hsome|].
  split; [reflexivity|].
  exact (@confirmed_run_outcome posix_exn_str ascii_only_lower emoji_script (py "yes")
           locked_world _ Hnodup Hfile Hsome eq_refl).
Defined.
